(** * A rule-based number game: the evaluation and conflict engine of main.py

    The development embeds the value object, the rule factory, the
    conflict checker and the evaluation pass of [RuleGame.run_iteration]
    and states the properties of the specification over them. *)

From Stdlib Require Import ZArith Ascii String List Lia.
From Stdlib Require Import DecimalString.
From stdpp Require Import base gmap strings list fin_maps fin_sets.

Local Open Scope string_scope.
Local Open Scope Z_scope.

(** ** Python values and outcomes *)

(** A value of a [params] dict: the factory stores ints and strs. *)
Inductive pval : Type :=
  | PInt (z : Z)
  | PStr (s : string).

#[global] Instance pval_eq_dec : EqDecision pval.
Proof. solve_decision. Defined.

#[global] Instance pval_countable : Countable pval.
Proof.
  refine (inj_countable'
            (λ v, match v with PInt z => inl z | PStr s => inr s end)
            (λ x, match x with inl z => PInt z | inr s => PStr s end) _).
  by intros [].
Defined.

#[global] Instance PInt_inj : Inj (=) (=) PInt.
Proof. by intros ?? [= ->]. Qed.

(** The exceptions the modelled code can raise. *)
Inductive exn : Type :=
  | Exception (msg : string)
  | ValueError (msg : string)
  | KeyError (key : string)
  | TypeError
  | ZeroDivisionError
  | IndexError.

(** Outcome of a computation: a value, a raised exception, or an
    exhausted iteration budget of a [while] loop. *)
Inductive result (A : Type) : Type :=
  | Return (a : A)
  | Raise (e : exn)
  | OutOfFuel.
Arguments Return {A} a.
Arguments Raise {A} e.
Arguments OutOfFuel {A}.

Definition bind {A B} (m : result A) (k : A → result B) : result B :=
  match m with
  | Return a => k a
  | Raise e => Raise e
  | OutOfFuel => OutOfFuel
  end.

Notation "x ←? m ; k" := (bind m (λ x, k))
  (at level 100, m at next level, right associativity,
   format "x  ←?  m ;  '/' k").

(** [str(n)] for an int. *)
Definition str (n : Z) : string := NilZero.string_of_int (Z.to_int n).

(** [sep.join(parts)]. *)
Definition join (sep : string) (parts : list string) : string :=
  String.concat sep parts.

(** The exception of [RuleValue.render]: a plain [Exception] whose
    message carries the number. *)
Definition BannedNumberError (number : Z) : exn :=
  Exception ("Game Over ❌ — " +:+ str number +:+ " is banned").

(** ** The value object *)

Record RuleValue : Type := mkRuleValue {
  number : Z;
  tags : list string;
  banned : bool
}.

(** [RuleValue(number=num)] *)
Definition fresh (num : Z) : RuleValue :=
  {| number := num; tags := []; banned := false |}.

Definition tag (self : RuleValue) (text : string) : RuleValue :=
  {| number := number self; tags := tags self ++ [text]; banned := banned self |}.

Definition ban_value (self : RuleValue) : RuleValue :=
  {| number := number self; tags := tags self; banned := true |}.

Definition set_number (self : RuleValue) (n : Z) : RuleValue :=
  {| number := n; tags := tags self; banned := banned self |}.

Definition render (self : RuleValue) : result string :=
  if banned self then Raise (BannedNumberError (number self))
  else match tags self with
       | [] => Return (str (number self))
       | _ :: _ => Return (join " " (tags self))
       end.

(** ** Rule metadata *)

Record RuleEntry : Type := mkRuleEntry {
  kind : string;
  params : gmap string pval;
  description : string;
  fn : RuleValue → RuleValue
}.

(** [rule.params[key]] *)
Definition get (rule : RuleEntry) (key : string) : result pval :=
  match params rule !! key with
  | Some v => Return v
  | None => Raise (KeyError key)
  end.

(** An f-string field for a value of a [params] dict. *)
Definition format (v : pval) : string :=
  match v with
  | PInt z => str z
  | PStr s => s
  end.

(** [n % d == 0] for an int [n] and a value [d] of a [params] dict. *)
Definition mod_is_zero (n : Z) (d : pval) : result bool :=
  match d with
  | PInt 0 => Raise ZeroDivisionError
  | PInt d => Return (n mod d =? 0)
  | PStr _ => Raise TypeError
  end.

(** ** The rule factory *)

Module Rules.

Definition swap (a b : Z) : RuleEntry :=
  {| kind := "swap";
     params := <["a" := PInt a]> (<["b" := PInt b]> ∅);
     description := "Swap " +:+ str a +:+ " ↔ " +:+ str b;
     fn := λ rv,
       if number rv =? a then set_number rv b
       else if number rv =? b then set_number rv a
       else rv |}.

Definition replace (num : Z) (text : string) : RuleEntry :=
  {| kind := "replace";
     params := <["num" := PInt num]> (<["text" := PStr text]> ∅);
     description := "Replace " +:+ str num +:+ " → '" +:+ text +:+ "'";
     fn := λ rv, if number rv =? num then tag rv text else rv |}.

Definition ban (num : Z) : RuleEntry :=
  {| kind := "ban";
     params := <["num" := PInt num]> ∅;
     description := "Ban " +:+ str num;
     fn := λ rv, if number rv =? num then ban_value rv else rv |}.

Definition divisible (divisor : Z) (text : string) : result RuleEntry :=
  if divisor =? 0 then Raise (ValueError "Divisor cannot be zero.")
  else Return
    {| kind := "divisible";
       params := <["divisor" := PInt divisor]> (<["text" := PStr text]> ∅);
       description :=
         "Divisible by " +:+ str divisor +:+ " → '" +:+ text +:+ "'";
       fn := λ rv, if number rv mod divisor =? 0 then tag rv text else rv |}.

Definition odd (text : string) : RuleEntry :=
  {| kind := "odd";
     params := <["text" := PStr text]> ∅;
     description := "Odd → '" +:+ text +:+ "'";
     fn := λ rv, if negb (number rv mod 2 =? 0) then tag rv text else rv |}.

Definition even (text : string) : RuleEntry :=
  {| kind := "even";
     params := <["text" := PStr text]> ∅;
     description := "Even → '" +:+ text +:+ "'";
     fn := λ rv, if number rv mod 2 =? 0 then tag rv text else rv |}.

End Rules.

(** The rules that the six constructors of the factory produce. *)
Inductive from_factory : RuleEntry → Prop :=
  | ff_swap a b : from_factory (Rules.swap a b)
  | ff_replace num text : from_factory (Rules.replace num text)
  | ff_ban num : from_factory (Rules.ban num)
  | ff_divisible divisor text r :
      Rules.divisible divisor text = Return r → from_factory r
  | ff_odd text : from_factory (Rules.odd text)
  | ff_even text : from_factory (Rules.even text).

(** ** The conflict checker *)

Module ConflictChecker.

(** [{r.params['num'] for r in self.active if r.kind == 'ban'}] *)
Fixpoint banned_numbers (active : list RuleEntry) : result (gset pval) :=
  match active with
  | [] => Return ∅
  | r :: rest =>
      if String.eqb (kind r) "ban" then
        n ←? get r "num";
        s ←? banned_numbers rest;
        Return ({[n]} ∪ s)
      else banned_numbers rest
  end.

(** [existing.kind == proposed.kind and existing.params == proposed.params] *)
Definition identical (proposed existing : RuleEntry) : bool :=
  String.eqb (kind existing) (kind proposed)
  && bool_decide (params existing = params proposed).

Definition duplicate_message (existing : RuleEntry) : string :=
  "An identical rule already exists → [" +:+ description existing +:+ "]".

Definition replace_message (n : pval) : string :=
  format n +:+ " is already banned — a replace rule for it would never fire".

Definition swap_message (n : pval) : string :=
  format n +:+ " is already banned — it cannot participate in a swap".

(** The loop over [('a', 'b')] of case 3. *)
Fixpoint check_sides (banned : gset pval) (proposed : RuleEntry)
    (sides : list string) : result (option string) :=
  match sides with
  | [] => Return None
  | side :: rest =>
      n ←? get proposed side;
      if bool_decide (n ∈ banned) then Return (Some (swap_message n))
      else check_sides banned proposed rest
  end.

Definition check (active : list RuleEntry) (proposed : RuleEntry)
    : result (option string) :=
  banned ←? banned_numbers active;
  match List.find (identical proposed) active with
  | Some existing => Return (Some (duplicate_message existing))
  | None =>
      targeted ←?
        (if String.eqb (kind proposed) "replace" then
           n ←? get proposed "num";
           if bool_decide (n ∈ banned) then Return (Some (replace_message n))
           else Return None
         else Return None);
      match targeted with
      | Some msg => Return (Some msg)
      | None =>
          if String.eqb (kind proposed) "swap" then
            check_sides banned proposed ["a"; "b"]
          else Return None
      end
  end.

End ConflictChecker.

(** ** The game *)

Record RuleGame : Type := mkRuleGame {
  active_rules : list RuleEntry;
  range_start : Z;
  range_end : Z
}.

(** [RuleGame()] *)
Definition new_game : RuleGame :=
  {| active_rules := []; range_start := 1; range_end := 10 |}.

Definition with_rules (g : RuleGame) (rules : list RuleEntry) : RuleGame :=
  {| active_rules := rules;
     range_start := range_start g;
     range_end := range_end g |}.

(** Truth value of [conflict] in [if conflict:]. *)
Definition truthy (conflict : option string) : bool :=
  match conflict with
  | None => false
  | Some msg => negb (String.eqb msg "")
  end.

(** [try_add] returns whether the rule was added, and the game after. *)
Definition try_add (g : RuleGame) (entry : RuleEntry)
    : result (bool * RuleGame) :=
  conflict ←? ConflictChecker.check (active_rules g) entry;
  if truthy conflict then Return (false, g)
  else Return (true, with_rules g (active_rules g ++ [entry])).

(** ** The evaluation pass of [run_iteration] *)

(** [range(start, stop)] *)
Definition py_range (start stop : Z) : list Z := seqZ start (stop - start).

(** The test made on [n] for a rule that is neither a ban, a swap nor a
    replace: divisibility or parity, by kind. *)
Definition matches (rule : RuleEntry) (n : Z) : result bool :=
  if String.eqb (kind rule) "divisible" then
    d ←? get rule "divisor";
    mod_is_zero n d
  else if String.eqb (kind rule) "odd" then Return (negb (n mod 2 =? 0))
  else if String.eqb (kind rule) "even" then Return (n mod 2 =? 0)
  else Return false.

(** The inner loop over the range: [rule_map[n] = rule] where the test holds. *)
Fixpoint assign_range (rule : RuleEntry) (ns : list Z)
    (rule_map : gmap pval RuleEntry) : result (gmap pval RuleEntry) :=
  match ns with
  | [] => Return rule_map
  | n :: rest =>
      hit ←? matches rule n;
      assign_range rule rest
        (if hit : bool then <[PInt n := rule]> rule_map else rule_map)
  end.

(** One turn of the loop over the active rules, on the pair
    [(rule_map, banned_numbers)]. *)
Definition add_rule (range_start range_end : Z)
    (st : gmap pval RuleEntry * gset pval) (rule : RuleEntry)
    : result (gmap pval RuleEntry * gset pval) :=
  let '(rule_map, banned_numbers) := st in
  if String.eqb (kind rule) "ban" then
    n ←? get rule "num";
    Return (rule_map, banned_numbers ∪ {[n]})
  else if String.eqb (kind rule) "swap" then
    a ←? get rule "a";
    b ←? get rule "b";
    Return (<[b := rule]> (<[a := rule]> rule_map), banned_numbers)
  else if String.eqb (kind rule) "replace" then
    n ←? get rule "num";
    Return (<[n := rule]> rule_map, banned_numbers)
  else
    rule_map' ←? assign_range rule (py_range range_start (range_end + 1)) rule_map;
    Return (rule_map', banned_numbers).

Fixpoint build_maps (range_start range_end : Z) (rules : list RuleEntry)
    (st : gmap pval RuleEntry * gset pval)
    : result (gmap pval RuleEntry * gset pval) :=
  match rules with
  | [] => Return st
  | rule :: rest =>
      st' ←? add_rule range_start range_end st rule;
      build_maps range_start range_end rest st'
  end.

(** [while next_num in banned_numbers: next_num += 1], with [fuel] turns. *)
Fixpoint scan (fuel : nat) (banned_numbers : gset pval) (next_num : Z)
    : result Z :=
  match fuel with
  | O => OutOfFuel
  | S fuel' =>
      if bool_decide (PInt next_num ∈ banned_numbers)
      then scan fuel' banned_numbers (next_num + 1)
      else Return next_num
  end.

(** The value rendered for [num]: a fresh one, transformed by the rule
    of the map when there is one. *)
Definition transformed (rule_map : gmap pval RuleEntry) (num : Z) : RuleValue :=
  let rv := fresh num in
  match rule_map !! PInt num with
  | Some rule => fn rule rv
  | None => rv
  end.

(** The body of the loop over the numbers, up to the player's move. *)
Definition expected (rule_map : gmap pval RuleEntry)
    (banned_numbers : gset pval) (num : Z) : result string :=
  rendered ←? render (transformed rule_map num);
  if bool_decide (PInt num ∈ banned_numbers) then
    next_num ←? scan (S (size banned_numbers)) banned_numbers (num + 1);
    Return (str next_num)
  else Return rendered.

Fixpoint expect_all (rule_map : gmap pval RuleEntry)
    (banned_numbers : gset pval) (nums : list Z) (out : gmap Z string)
    : result (gmap Z string) :=
  match nums with
  | [] => Return out
  | num :: rest =>
      e ←? expected rule_map banned_numbers num;
      expect_all rule_map banned_numbers rest (<[num := e]> out)
  end.

(** The mapping from each number of the range to its expected string. *)
Definition evaluate (g : RuleGame) : result (gmap Z string) :=
  st ←? build_maps (range_start g) (range_end g) (active_rules g) (∅, ∅);
  expect_all st.1 st.2 (py_range (range_start g) (range_end g + 1)) ∅.

(** [evaluate()[n]] *)
Definition evaluate_at (g : RuleGame) (n : Z) : result (option string) :=
  m ←? evaluate g;
  Return (m !! n).

(** ** [str.strip()] *)

(** The code of a byte of a string; a string holds the UTF-8 encoding
    of a Python [str]. *)
Definition code (c : ascii) : Z := Z.of_N (N_of_ascii c).

(** The characters for which [str.isspace()] holds, by the length of
    their encoding: U+0009..U+000D, U+001C..U+0020; U+0085, U+00A0;
    U+1680, U+2000..U+200A, U+2028, U+2029, U+202F, U+205F, U+3000. *)
Definition space1 (a : Z) : bool :=
  ((9 <=? a) && (a <=? 13)) || ((28 <=? a) && (a <=? 32)).

Definition space2 (a b : Z) : bool :=
  (a =? 194) && ((b =? 133) || (b =? 160)).

Definition space3 (a b c : Z) : bool :=
  ((a =? 225) && (b =? 154) && (c =? 128))
  || ((a =? 226) && (b =? 128)
      && (((128 <=? c) && (c <=? 138)) || (c =? 168) || (c =? 169) || (c =? 175)))
  || ((a =? 226) && (b =? 129) && (c =? 159))
  || ((a =? 227) && (b =? 128) && (c =? 128)).

(** Dropping the whitespace characters at the front of a list of bytes;
    with [backwards] the list is a reversed string, so that the bytes of
    a character come last byte first. *)
Fixpoint drop_spaces (backwards : bool) (l : list ascii) : list ascii :=
  match l with
  | [] => []
  | c1 :: l1 =>
      if space1 (code c1) then drop_spaces backwards l1
      else
        match l1 with
        | [] => l
        | c2 :: l2 =>
            if (if backwards then space2 (code c2) (code c1)
                else space2 (code c1) (code c2))
            then drop_spaces backwards l2
            else
              match l2 with
              | [] => l
              | c3 :: l3 =>
                  if (if backwards then space3 (code c3) (code c2) (code c1)
                      else space3 (code c1) (code c2) (code c3))
                  then drop_spaces backwards l3
                  else l
              end
        end
  end.

(** [s.strip()]: the whitespace is dropped at both ends. *)
Definition strip (s : string) : string :=
  string_of_list_ascii
    (rev (drop_spaces true (rev (drop_spaces false (list_ascii_of_string s))))).

(** Whether a list of bytes begins with a whitespace character. *)
Definition starts_space (backwards : bool) (l : list ascii) : bool :=
  match l with
  | [] => false
  | c1 :: l1 =>
      space1 (code c1)
      || match l1 with
         | [] => false
         | c2 :: l2 =>
             (if backwards then space2 (code c2) (code c1)
              else space2 (code c1) (code c2))
             || match l2 with
                | [] => false
                | c3 :: _ =>
                    if backwards then space3 (code c3) (code c2) (code c1)
                    else space3 (code c1) (code c2) (code c3)
                end
         end
  end.

(** The round: a line is read from the player for each number, and
    compared once stripped. *)
Fixpoint play (rule_map : gmap pval RuleEntry) (banned_numbers : gset pval)
    (nums : list Z) (moves : list string) : result bool :=
  match nums with
  | [] => Return true
  | num :: rest =>
      e ←? expected rule_map banned_numbers num;
      match moves with
      | [] => Return false
      | move :: moves' =>
          let player_input := strip move in
          if String.eqb player_input e
          then play rule_map banned_numbers rest moves'
          else Return false
      end
  end.

Definition game (rules : list RuleEntry) (s e : Z) : RuleGame :=
  {| active_rules := rules; range_start := s; range_end := e |}.

(** [run_iteration], with the lines the player types; any exception ends
    the round, as does a missing line. *)
Definition run_iteration (g : RuleGame) (moves : list string) : bool :=
  match
    st ←? build_maps (range_start g) (range_end g) (active_rules g) (∅, ∅);
    play st.1 st.2 (py_range (range_start g) (range_end g + 1)) moves
  with
  | Return ok => ok
  | _ => false
  end.

(** ** Removing a rule *)

(** [l.pop(i)]: a negative index counts from the end, an index out of
    range raises. *)
Definition pop (l : list RuleEntry) (i : Z)
    : result (RuleEntry * list RuleEntry) :=
  let len := Z.of_nat (length l) in
  let j := if i <? 0 then i + len else i in
  if (j <? 0) || (len <=? j) then Raise IndexError
  else match l !! Z.to_nat j with
       | Some x => Return (x, delete (Z.to_nat j) l)
       | None => Raise IndexError
       end.

(** What [remove_rule] reports: one of its three messages. *)
Inductive removal : Type :=
  | NoRules
  | InvalidNumber
  | Removed (removed : RuleEntry).

(** [remove_rule], with the player's answer to the prompt ([None] when
    it is not an integer). *)
Definition remove_rule (g : RuleGame) (choice : option Z)
    : result (removal * RuleGame) :=
  match active_rules g with
  | [] => Return (NoRules, g)
  | _ :: _ =>
      match choice with
      | None => Return (InvalidNumber, g)
      | Some c =>
          if negb ((1 <=? c) && (c <=? Z.of_nat (length (active_rules g))))
          then Return (InvalidNumber, g)
          else
            popped ←? pop (active_rules g) (c - 1);
            Return (Removed popped.1, with_rules g popped.2)
      end
  end.

(** ** Adding a custom rule *)

Definition MAX_RETRIES : nat := 3.

(** The retry loop of [add_custom_rule] once a pattern is chosen:
    [builder attempt] is what building the rule from the player's input
    gives at that attempt.  A [ValueError] ends the dialogue, another
    exception propagates. *)
Fixpoint add_custom_loop (remaining attempt : nat) (g : RuleGame)
    (builder : nat → result RuleEntry) : result RuleGame :=
  match remaining with
  | O => Return g
  | S remaining' =>
      match builder attempt with
      | Raise (ValueError _) => Return g
      | Raise e => Raise e
      | OutOfFuel => OutOfFuel
      | Return entry =>
          added ←? try_add g entry;
          if added.1 then Return added.2
          else add_custom_loop remaining' (S attempt) added.2 builder
      end
  end.

Definition add_custom_rule (g : RuleGame) (builder : nat → result RuleEntry)
    : result RuleGame :=
  add_custom_loop MAX_RETRIES 0 g builder.

(** ** Display *)

(** [n] spaces. *)
Fixpoint spaces (n : nat) : string :=
  match n with
  | O => ""
  | S n' => " " +:+ spaces n'
  end.

(** The format [{x:>width}] of a field already turned into a string. *)
Definition rjust (width : nat) (field : string) : string :=
  spaces (width - String.length field) +:+ field.

(** [show_active_rules]: the lines it prints. *)
Definition show_active_rules (g : RuleGame) : list string :=
  match active_rules g with
  | [] => ["    (no rules active)"]
  | _ :: _ =>
      imap (λ i r, "    " +:+ rjust 2 (str (Z.of_nat i + 1)) +:+ ". "
                   +:+ description r)
           (active_rules g)
  end.

(** ** Predefined rules *)

(** The table [PREDEFINED]: a description and what calling the builder
    gives, under each key. *)
Definition PREDEFINED : gmap Z (string * result RuleEntry) :=
  list_to_map
    [ (1, ("Swap 6 ↔ 9", Return (Rules.swap 6 9)));
      (2, ("Replace 1 → 'ewww 1'", Return (Rules.replace 1 "ewww 1")));
      (3, ("Ban 4", Return (Rules.ban 4)));
      (4, ("Divisible by 3 → Fizz", Rules.divisible 3 "Fizz"));
      (5, ("Odd → 'Odd'", Return (Rules.odd "Odd"))) ].

(** [add_predefined_rule], with the player's answer to the prompt
    ([None] when it is not an integer). *)
Definition add_predefined_rule (g : RuleGame) (choice : option Z)
    : result RuleGame :=
  match choice with
  | None => Return g
  | Some c =>
      match PREDEFINED !! c with
      | None => Return g
      | Some (_, builder) =>
          entry ←? builder;
          added ←? try_add g entry;
          Return added.2
      end
  end.

(** ** Changing the range *)

(** [prompt_range]: the answers to the prompts are read two by two
    ([None] for an answer that is not an integer) until a pair with
    [start < end] comes; the result is that pair and the answers left.
    [None] when the answers run out first. *)
Fixpoint prompt_range (answers : list (option Z))
    : option (Z * Z * list (option Z)) :=
  match answers with
  | start :: stop :: rest =>
      match start, stop with
      | Some s, Some e =>
          if s >=? e then prompt_range rest else Some (s, e, rest)
      | _, _ => prompt_range rest
      end
  | _ => None
  end.

Definition change_range (g : RuleGame) (answers : list (option Z))
    : option (RuleGame * list (option Z)) :=
  match prompt_range answers with
  | Some (s, e, rest) =>
      Some ({| active_rules := active_rules g;
               range_start := s; range_end := e |}, rest)
  | None => None
  end.

(** ** Properties of a collection *)

(** What the duplicate test compares: the kind and the params. *)
Definition rule_key (r : RuleEntry) : string * gmap string pval :=
  (kind r, params r).

(** No two rules of the collection are identical for the checker. *)
Definition distinct_rules (rules : list RuleEntry) : Prop :=
  NoDup (rule_key <$> rules).

(** A replace whose target, or a swap one of whose endpoints, is [v]. *)
Definition touches (r : RuleEntry) (v : pval) : Prop :=
  (kind r = "replace" ∧ params r !! "num" = Some v)
  ∨ (kind r = "swap"
     ∧ (params r !! "a" = Some v ∨ params r !! "b" = Some v)).

(** A ban rule of target [v]. *)
Definition bans (r : RuleEntry) (v : pval) : Prop :=
  kind r = "ban" ∧ params r !! "num" = Some v.

(** No replace or swap on a number comes after a ban of that number. *)
Fixpoint bans_last (rules : list RuleEntry) : Prop :=
  match rules with
  | [] => True
  | r :: rest =>
      (∀ v, bans r v → Forall (λ x, ¬ touches x v) rest) ∧ bans_last rest
  end.

(** The labels of the numbers [nums] in a mapping, in order. *)
Definition labels (m : gmap Z string) (nums : list Z) : list string :=
  omap (λ n, m !! n) nums.

(** ** The governing rule, as the specification words it *)

(** Whether a rule can affect number [n]: a swap both its endpoints, a
    replace its target, a divisible, odd or even rule the numbers that
    satisfy its predicate; a ban rule governs nothing. *)
Definition governs (r : RuleEntry) (n : Z) : bool :=
  if String.eqb (kind r) "swap" then
    bool_decide (params r !! "a" = Some (PInt n))
    || bool_decide (params r !! "b" = Some (PInt n))
  else if String.eqb (kind r) "replace" then
    bool_decide (params r !! "num" = Some (PInt n))
  else if String.eqb (kind r) "divisible" then
    match params r !! "divisor" with
    | Some (PInt d) => n mod d =? 0
    | _ => false
    end
  else if String.eqb (kind r) "odd" then negb (n mod 2 =? 0)
  else if String.eqb (kind r) "even" then n mod 2 =? 0
  else false.

(** The last rule, in collection order, that can affect [n]. *)
Fixpoint governing (rules : list RuleEntry) (n : Z) : option RuleEntry :=
  match rules with
  | [] => None
  | r :: rest =>
      match governing rest n with
      | Some later => Some later
      | None => if governs r n then Some r else None
      end
  end.

(** Number [n] is the target of a ban rule of the collection. *)
Definition ban_targets (rules : list RuleEntry) (v : pval) : Prop :=
  ∃ r, r ∈ rules ∧ kind r = "ban" ∧ params r !! "num" = Some v.

(** The same, as a test. *)
Definition banned_by (rules : list RuleEntry) (n : Z) : bool :=
  existsb (λ r, String.eqb (kind r) "ban"
                && bool_decide (params r !! "num" = Some (PInt n))) rules.

(** ** Further notions for the properties *)

(** A candidate is clean for a collection when no rule of it has the
    same kind and params and the candidate touches no banned number. *)
Definition clean (active : list RuleEntry) (proposed : RuleEntry) : Prop :=
  (rule_key proposed ∉ rule_key <$> active)
  ∧ ∀ v, touches proposed v → ¬ ban_targets active v.

(** An attempt of the dialogue that is built and rejected. *)
Definition rejected_attempt (g : RuleGame) (builder : nat → result RuleEntry)
    (k : nat) : Prop :=
  ∃ r, builder k = Return r ∧ try_add g r = Return (false, g).

(** A builder of the dialogue: at each attempt a rule of the factory, or
    the [ValueError] of a malformed number or of a zero divisor. *)
Definition factory_builder (builder : nat → result RuleEntry) : Prop :=
  ∀ k, (∃ r, builder k = Return r ∧ from_factory r)
       ∨ (∃ msg, builder k = Raise (ValueError msg)).

(** The collection without its ban rules. *)
Definition without_bans (rules : list RuleEntry) : list RuleEntry :=
  List.filter (λ r, negb (String.eqb (kind r) "ban")) rules.

(** A rule that a builder of the table [PREDEFINED] gives. *)
Definition predefined_rule (r : RuleEntry) : Prop :=
  ∃ c desc, PREDEFINED !! c = Some (desc, Return r).

(** A ban rule made by hand without its ['num']. *)
Definition ban_without_num (r : RuleEntry) : Prop :=
  kind r = "ban" ∧ params r !! "num" = None.

(** * Properties *)

(** ** The definitions on concrete inputs *)

Example str_ex : str 11 = "11" ∧ str 0 = "0" ∧ str (-7) = "-7".
Proof. repeat split; reflexivity. Qed.

Example render_ex :
  render (tag (tag (fresh 3) "Fizz") "Odd") = Return "Fizz Odd".
Proof. reflexivity. Qed.

Example check_ex1 :
  ConflictChecker.check [Rules.ban 6] (Rules.swap 6 9)
  = Return (Some "6 is already banned — it cannot participate in a swap").
Proof. vm_compute. reflexivity. Qed.

Example check_ex2 :
  ConflictChecker.check [Rules.ban 6] (Rules.swap 5 9) = Return None.
Proof. vm_compute. reflexivity. Qed.

Example check_ex3 :
  ConflictChecker.check [Rules.swap 6 9; Rules.ban 4] (Rules.swap 6 9)
  = Return (Some "An identical rule already exists → [Swap 6 ↔ 9]").
Proof. vm_compute. reflexivity. Qed.

Example eval_ex1 :
  (fizz ←? Rules.divisible 3 "Fizz";
   evaluate_at (game [Rules.swap 6 9; fizz] 1 9) 6) = Return (Some "Fizz").
Proof. vm_compute. reflexivity. Qed.

Example eval_ex2 :
  evaluate_at (game [Rules.ban 4] 1 10) 4 = Return (Some "5").
Proof. vm_compute. reflexivity. Qed.

Example eval_ex3 :
  evaluate_at (game [Rules.ban 10; Rules.ban 11] 1 10) 10 = Return (Some "12").
Proof. vm_compute. reflexivity. Qed.

Example eval_ex4 :
  (fizz ←? Rules.divisible 3 "Fizz";
   evaluate_at (game [fizz; Rules.swap 6 9] 1 9) 6) = Return (Some "9").
Proof. vm_compute. reflexivity. Qed.

Example run_ex :
  run_iteration (game [Rules.ban 2; Rules.odd "Odd"] 1 3) ["Odd"; "3"; "Odd"]
  = true.
Proof. vm_compute. reflexivity. Qed.

Example strip_ex :
  strip "  Fizz Buzz  " = "Fizz Buzz"
  ∧ strip (String (ascii_of_nat 9) "7" +:+ String (ascii_of_nat 13) "") = "7"
  ∧ strip " Swap ↔ " = "Swap ↔"
  ∧ strip ("x" +:+ String (ascii_of_nat 194) (String (ascii_of_nat 160) ""))
    = "x"
  ∧ strip (String (ascii_of_nat 227) (String (ascii_of_nat 128)
             (String (ascii_of_nat 128) "Odd"))) = "Odd"
  ∧ strip "   " = "" ∧ strip "" = "" ∧ strip "a b" = "a b".
Proof. repeat split; reflexivity. Qed.

Example run_strip_ex :
  run_iteration (game [Rules.ban 2; Rules.odd "Odd"] 1 3)
    [" Odd"; "3 "; "  Odd  "; "unread"] = true
  ∧ run_iteration (game [Rules.odd " Odd"] 1 2) [" Odd"; "2"] = false.
Proof. split; vm_compute; reflexivity. Qed.

Example pop_ex :
  pop [Rules.ban 1; Rules.ban 2] (-1) = Return (Rules.ban 2, [Rules.ban 1])
  ∧ pop [Rules.ban 1; Rules.ban 2] 2 = Raise IndexError
  ∧ pop [] 0 = Raise IndexError.
Proof. repeat split; reflexivity. Qed.

(** ** Case analysis on factory rules *)

Ltac factory_cases H :=
  let Hd := fresh "Hd" in
  let Hz := fresh "Hz" in
  destruct H as [?a ?b|?num ?text|?num|?d ?text ?r Hd|?text|?text];
  [ | | | unfold Rules.divisible in Hd;
          destruct (Z.eqb_spec d 0) as [Hz|Hz];
          [discriminate Hd | injection Hd as <-] | | ].

Lemma fn_keeps_flag r rv :
  from_factory r → kind r ≠ "ban" → banned (fn r rv) = banned rv.
Proof.
  intros Hf Hk. factory_cases Hf; cbn in *; try done;
    repeat case_match; done.
Qed.

Lemma render_not_banned rv :
  banned rv = false → ∃ text, render rv = Return text.
Proof.
  intros Hb. unfold render. rewrite Hb. destruct (tags rv); eauto.
Qed.

(** ** The forward scan *)

Lemma scan_no_raise fuel bn next e : scan fuel bn next ≠ Raise e.
Proof.
  revert next. induction fuel as [|fuel IH]; intros next; cbn; [done|].
  case_bool_decide; [apply IH | done].
Qed.

Lemma scan_exhausted fuel bn next :
  scan fuel bn next = OutOfFuel →
  ∀ k, next ≤ k < next + Z.of_nat fuel → PInt k ∈ bn.
Proof.
  revert next. induction fuel as [|fuel IH]; intros next Hs k Hk; [lia|].
  cbn in Hs. case_bool_decide as Hin; [|done].
  destruct (decide (k = next)) as [->|Hne]; [done|].
  apply (IH (next + 1)); [done | lia].
Qed.

Lemma scan_result fuel bn next m :
  scan fuel bn next = Return m →
  (next ≤ m) ∧ (PInt m ∉ bn) ∧ ∀ k, next ≤ k < m → PInt k ∈ bn.
Proof.
  revert next. induction fuel as [|fuel IH]; intros next Hs; [done|].
  cbn in Hs. case_bool_decide as Hin.
  - destruct (IH _ Hs) as (Hle & Hout & Hall). split_and!; [lia | done |].
    intros k Hk. destruct (decide (k = next)) as [->|Hne]; [done|].
    apply Hall. lia.
  - injection Hs as <-. split_and!; [lia | done | intros; lia].
Qed.

Lemma scan_total bn next : ∃ m, scan (S (size bn)) bn next = Return m.
Proof.
  destruct (scan (S (size bn)) bn next) as [m|e|] eqn:Hs; [by eexists | |].
  - by apply scan_no_raise in Hs.
  - exfalso.
    pose proof (scan_exhausted _ _ _ Hs) as Hall.
    set (run := PInt <$> seqZ next (Z.of_nat (S (size bn)))).
    assert (NoDup run) as Hnd.
    { apply (NoDup_fmap_2 _), NoDup_seqZ. }
    assert (list_to_set run ⊆ bn) as Hsub.
    { intros v Hv. apply elem_of_list_to_set, list_elem_of_fmap in Hv
        as (k & -> & Hk). apply elem_of_seqZ in Hk. apply Hall. lia. }
    apply subseteq_size in Hsub.
    rewrite size_list_to_set in Hsub by done.
    unfold run in Hsub. rewrite length_fmap, length_seqZ in Hsub. lia.
Qed.

Lemma scan_more_fuel fuel fuel' bn next m :
  scan fuel bn next = Return m → (fuel ≤ fuel')%nat →
  scan fuel' bn next = Return m.
Proof.
  revert fuel' next. induction fuel as [|fuel IH]; intros fuel' next Hs Hle;
    [done|].
  destruct fuel' as [|fuel']; [lia|].
  cbn in *. case_bool_decide; [apply IH; [done | lia] | done].
Qed.

(** ** Building the rule map and the banned set *)

Lemma elem_of_py_range n start stop :
  n ∈ py_range start stop ↔ start ≤ n < stop.
Proof. unfold py_range. rewrite elem_of_seqZ. lia. Qed.

Lemma assign_range_total rule test ns :
  (∀ n, matches rule n = Return (test n)) →
  ∀ rm, ∃ rm',
    assign_range rule ns rm = Return rm'
    ∧ (∀ n, rm' !! PInt n
            = if bool_decide (n ∈ ns) && test n then Some rule
              else rm !! PInt n)
    ∧ (∀ k x, rm' !! k = Some x → x = rule ∨ rm !! k = Some x).
Proof.
  intros Htest. induction ns as [|n0 ns IH]; intros rm; cbn.
  - exists rm. split_and!; [done | | by right].
    intros n. by rewrite bool_decide_eq_false_2 by apply not_elem_of_nil.
  - rewrite Htest. cbn.
    destruct (IH (if test n0 then <[PInt n0:=rule]> rm else rm))
      as (rm' & -> & Hlook & Hval).
    exists rm'. split_and!; [done | |].
    + intros n. rewrite Hlook.
      destruct (decide (n = n0)) as [->|Hne].
      * rewrite (bool_decide_eq_true_2 (n0 ∈ n0 :: ns)) by apply list_elem_of_here.
        destruct (bool_decide (n0 ∈ ns)), (test n0) eqn:Ht; cbn; try done.
        by rewrite lookup_insert_eq.
      * assert (bool_decide (n ∈ n0 :: ns) = bool_decide (n ∈ ns)) as ->.
        { apply bool_decide_ext. rewrite elem_of_cons.
          split; [by intros [?|?] | by right]. }
        destruct (bool_decide (n ∈ ns) && test n); [done|].
        destruct (test n0); [|done].
        rewrite lookup_insert_ne; [done | congruence].
    + intros k x Hx. destruct (Hval _ _ Hx) as [->|Hrm]; [by left|].
      destruct (test n0); [|by right].
      apply lookup_insert_Some in Hrm as [[_ <-]|[_ Hrm]]; [by left | by right].
Qed.

Lemma bool_decide_Some_PInt (n m : Z) :
  bool_decide (Some (PInt m) = Some (PInt n)) = bool_decide (m = n).
Proof. apply bool_decide_ext. split; [by intros [= ->] | by intros ->]. Qed.

Lemma governs_swap a b n :
  governs (Rules.swap a b) n = bool_decide (a = n) || bool_decide (b = n).
Proof. rewrite <- !bool_decide_Some_PInt. reflexivity. Qed.

Lemma governs_replace num text n :
  governs (Rules.replace num text) n = bool_decide (num = n).
Proof. rewrite <- !bool_decide_Some_PInt. reflexivity. Qed.

Lemma governs_ban num n : governs (Rules.ban num) n = false.
Proof. reflexivity. Qed.

(** One turn of the loop, for a rule of the factory: it never raises, a
    number of the range is reassigned exactly when the rule governs it,
    and only a ban rule extends the banned set. *)
Lemma add_rule_factory s e rm bn r :
  from_factory r →
  ∃ rm' bn',
    add_rule s e (rm, bn) r = Return (rm', bn')
    ∧ (∀ n, s ≤ n ≤ e →
         rm' !! PInt n = if governs r n then Some r else rm !! PInt n)
    ∧ (∀ v, v ∈ bn'
            ↔ v ∈ bn ∨ (kind r = "ban" ∧ params r !! "num" = Some v))
    ∧ (∀ k x, rm' !! k = Some x →
         (x = r ∧ kind r ≠ "ban") ∨ rm !! k = Some x).
Proof.
  intros Hf. factory_cases Hf.
  - (* swap *)
    exists (<[PInt b := Rules.swap a b]> (<[PInt a := Rules.swap a b]> rm)), bn.
    split_and!; [reflexivity | | |].
    + intros n _. rewrite governs_swap.
      destruct (decide (b = n)) as [->|Hb].
      * rewrite lookup_insert_eq, (bool_decide_eq_true_2 (n = n)) by done.
        by rewrite orb_true_r.
      * rewrite lookup_insert_ne, (bool_decide_eq_false_2 (b = n)) by congruence.
        rewrite orb_false_r. case_bool_decide as Ha.
        -- subst. by rewrite lookup_insert_eq.
        -- rewrite lookup_insert_ne; [done | congruence].
    + intros v. cbn. split; [by left | by intros [?|[? _]]].
    + intros k x Hx.
      apply lookup_insert_Some in Hx as [[_ <-]|[_ Hx]]; [by left|].
      apply lookup_insert_Some in Hx as [[_ <-]|[_ Hx]]; [by left | by right].
  - (* replace *)
    exists (<[PInt num := Rules.replace num text]> rm), bn.
    split_and!; [reflexivity | | |].
    + intros n _. rewrite governs_replace. case_bool_decide as Hn.
      * subst. by rewrite lookup_insert_eq.
      * rewrite lookup_insert_ne; [done | congruence].
    + intros v. cbn. split; [by left | by intros [?|[? _]]].
    + intros k x Hx.
      apply lookup_insert_Some in Hx as [[_ <-]|[_ Hx]]; [by left | by right].
  - (* ban *)
    exists rm, (bn ∪ {[PInt num]}). split_and!; [reflexivity | | |].
    + intros n _. done.
    + intros v. rewrite elem_of_union, elem_of_singleton.
      change (params (Rules.ban num) !! "num") with (Some (PInt num)).
      split; (intros [?|Hv]; [by left | right]).
      * split; [done | congruence].
      * destruct Hv as [_ Hv]. congruence.
    + intros k x Hx. by right.
  - (* divisible *)
    set (r := {| kind := "divisible" |}).
    destruct (assign_range_total r (λ n, n mod d =? 0)
                (py_range s (e + 1)) ) with (rm := rm)
      as (rm' & Hrun & Hlook & Hval).
    { intros n. change (matches r n) with (mod_is_zero n (PInt d)).
      destruct d; done. }
    exists rm', bn. split_and!.
    + change (add_rule s e (rm, bn) r)
        with (rm' ←? assign_range r (py_range s (e + 1)) rm; Return (rm', bn)).
      by rewrite Hrun.
    + intros n Hn. rewrite Hlook.
      change (governs r n) with (n mod d =? 0).
      rewrite bool_decide_eq_true_2; [done|]. apply elem_of_py_range. lia.
    + intros v. cbn. split; [by left | by intros [?|[? _]]].
    + intros k x Hx. destruct (Hval _ _ Hx) as [->|?]; [by left | by right].
  - (* odd *)
    set (r := Rules.odd text).
    destruct (assign_range_total r (λ n, negb (n mod 2 =? 0))
                (py_range s (e + 1)) ) with (rm := rm)
      as (rm' & Hrun & Hlook & Hval); [done|].
    exists rm', bn. split_and!.
    + change (add_rule s e (rm, bn) r)
        with (rm' ←? assign_range r (py_range s (e + 1)) rm; Return (rm', bn)).
      by rewrite Hrun.
    + intros n Hn. rewrite Hlook.
      change (governs r n) with (negb (n mod 2 =? 0)).
      rewrite bool_decide_eq_true_2; [done|]. apply elem_of_py_range. lia.
    + intros v. cbn. split; [by left | by intros [?|[? _]]].
    + intros k x Hx. destruct (Hval _ _ Hx) as [->|?]; [by left | by right].
  - (* even *)
    set (r := Rules.even text).
    destruct (assign_range_total r (λ n, n mod 2 =? 0)
                (py_range s (e + 1)) ) with (rm := rm)
      as (rm' & Hrun & Hlook & Hval); [done|].
    exists rm', bn. split_and!.
    + change (add_rule s e (rm, bn) r)
        with (rm' ←? assign_range r (py_range s (e + 1)) rm; Return (rm', bn)).
      by rewrite Hrun.
    + intros n Hn. rewrite Hlook.
      change (governs r n) with (n mod 2 =? 0).
      rewrite bool_decide_eq_true_2; [done|]. apply elem_of_py_range. lia.
    + intros v. cbn. split; [by left | by intros [?|[? _]]].
    + intros k x Hx. destruct (Hval _ _ Hx) as [->|?]; [by left | by right].
Qed.

(** The loop over a collection of factory rules: it never raises, the
    rule map holds for each number of the range the last rule that can
    affect it, and the banned set gains the targets of the ban rules. *)
Lemma build_maps_factory s e rules :
  Forall from_factory rules →
  ∀ rm bn, ∃ rm' bn',
    build_maps s e rules (rm, bn) = Return (rm', bn')
    ∧ (∀ n, s ≤ n ≤ e →
         rm' !! PInt n = match governing rules n with
                         | Some r => Some r
                         | None => rm !! PInt n
                         end)
    ∧ (∀ v, v ∈ bn' ↔ v ∈ bn ∨ ban_targets rules v)
    ∧ (∀ k x, rm' !! k = Some x →
         (x ∈ rules ∧ kind x ≠ "ban") ∨ rm !! k = Some x).
Proof.
  induction 1 as [|r rules Hr _ IH]; intros rm bn.
  - exists rm, bn. split_and!; [done | done | | by right].
    intros v. split; [by left | intros [?|(r & Hin & _)]; [done|]].
    by apply not_elem_of_nil in Hin.
  - destruct (add_rule_factory s e rm bn r Hr)
      as (rm1 & bn1 & Hstep & Hlook1 & Hbn1 & Hval1).
    destruct (IH rm1 bn1) as (rm2 & bn2 & Hrun & Hlook2 & Hbn2 & Hval2).
    exists rm2, bn2. split_and!.
    + change (build_maps s e (r :: rules) (rm, bn))
        with (st' ←? add_rule s e (rm, bn) r; build_maps s e rules st').
      rewrite Hstep. exact Hrun.
    + intros n Hn. rewrite (Hlook2 n Hn). cbn.
      destruct (governing rules n); [done|]. rewrite (Hlook1 n Hn).
      by destruct (governs r n).
    + intros v. rewrite Hbn2, Hbn1. unfold ban_targets. split.
      * intros [[?|[Hk Hp]]|(x & Hin & Hk & Hp)]; [by left | right..].
        -- exists r. split_and!; [left | done | done].
        -- exists x. split_and!; [by right | done | done].
      * intros [?|(x & Hin & Hk & Hp)]; [by left; left|].
        apply elem_of_cons in Hin as [->|Hin]; [left; right; done|].
        right. by exists x.
    + intros k x Hx. destruct (Hval2 _ _ Hx) as [[Hin Hk]|Hx1].
      * left. split; [by right | done].
      * destruct (Hval1 _ _ Hx1) as [[-> Hk]|Hx0]; [|by right].
        left. split; [left | done].
Qed.

(** ** Rendering every number of the range *)

Lemma expect_all_total rm bn nums :
  (∀ n, n ∈ nums → ∃ text, expected rm bn n = Return text) →
  ∀ out, ∃ m,
    expect_all rm bn nums out = Return m
    ∧ (∀ n, m !! n = if bool_decide (n ∈ nums)
                     then match expected rm bn n with
                          | Return text => Some text
                          | _ => None
                          end
                     else out !! n).
Proof.
  induction nums as [|n0 nums IH]; intros Hall out.
  - exists out. split; [done|].
    intros n. by rewrite bool_decide_eq_false_2 by apply not_elem_of_nil.
  - destruct (Hall n0) as [text Ht]; [left|].
    destruct (IH (λ n Hn, Hall n (list_elem_of_further _ _ _ Hn))
                 (<[n0 := text]> out)) as (m & Hrun & Hlook).
    exists m. split; [cbn; by rewrite Ht|].
    intros n. rewrite Hlook.
    destruct (decide (n = n0)) as [->|Hne].
    + rewrite (bool_decide_eq_true_2 (n0 ∈ n0 :: nums))
        by apply list_elem_of_here.
      rewrite Ht. case_bool_decide; [done | by rewrite lookup_insert_eq].
    + assert (bool_decide (n ∈ n0 :: nums) = bool_decide (n ∈ nums)) as ->.
      { apply bool_decide_ext. rewrite elem_of_cons.
        split; [by intros [?|?] | by right]. }
      case_bool_decide; [done | by rewrite lookup_insert_ne].
Qed.

Lemma banned_by_spec rules n :
  banned_by rules n = true ↔ ban_targets rules (PInt n).
Proof.
  unfold banned_by, ban_targets. rewrite existsb_exists. split.
  - intros (r & Hin & Hr). apply andb_true_iff in Hr as [Hk Hp].
    exists r. split_and!; [by apply list_elem_of_In | by apply String.eqb_eq
                          | by apply bool_decide_eq_true in Hp].
  - intros (r & Hin & Hk & Hp). exists r. split; [by apply list_elem_of_In|].
    apply andb_true_iff. split; [by apply String.eqb_eq
                                | by apply bool_decide_eq_true].
Qed.

Lemma not_banned_by_spec rules n :
  banned_by rules n = false ↔ ¬ ban_targets rules (PInt n).
Proof. rewrite <- banned_by_spec. by destruct (banned_by rules n). Qed.

(** A rule map that holds only non-ban rules of the factory. *)
Definition ban_free (rm : gmap pval RuleEntry) : Prop :=
  ∀ k x, rm !! k = Some x → from_factory x ∧ kind x ≠ "ban".

Lemma transformed_not_banned rm n :
  ban_free rm → banned (transformed rm n) = false.
Proof.
  intros Hrm. unfold transformed.
  destruct (rm !! PInt n) as [r|] eqn:Hr; [|done].
  destruct (Hrm _ _ Hr) as [Hf Hk]. by rewrite fn_keeps_flag.
Qed.

(** The body of the loop never raises on such a map: it yields the
    rendering of the transformed value, or, for a banned number, the
    decimal string of the number the scan stops at. *)
Lemma expected_ban_free rm bn n :
  ban_free rm →
  ∃ rendered,
    render (transformed rm n) = Return rendered
    ∧ (((PInt n ∉ bn) ∧ expected rm bn n = Return rendered)
       ∨ (PInt n ∈ bn
          ∧ ∃ next, scan (S (size bn)) bn (n + 1) = Return next
                    ∧ expected rm bn n = Return (str next))).
Proof.
  intros Hrm.
  destruct (render_not_banned _ (transformed_not_banned rm n Hrm))
    as [rendered Hr].
  exists rendered. split; [done|]. unfold expected. rewrite Hr. cbn -[scan].
  case_bool_decide as Hin; [right | by left].
  split; [done|]. destruct (scan_total bn (n + 1)) as [next Hs].
  exists next. by rewrite Hs.
Qed.

(** The whole pass over a collection of factory rules. *)
Lemma evaluate_factory g :
  Forall from_factory (active_rules g) →
  ∃ rm bn m,
    build_maps (range_start g) (range_end g) (active_rules g) (∅, ∅)
    = Return (rm, bn)
    ∧ evaluate g = Return m
    ∧ ban_free rm
    ∧ (∀ n, range_start g ≤ n ≤ range_end g →
         rm !! PInt n = governing (active_rules g) n)
    ∧ (∀ v, v ∈ bn ↔ ban_targets (active_rules g) v)
    ∧ (∀ n, range_start g ≤ n ≤ range_end g →
         ∃ text, expected rm bn n = Return text ∧ m !! n = Some text)
    ∧ (∀ n, ¬ (range_start g ≤ n ≤ range_end g) → m !! n = None).
Proof.
  intros Hf.
  destruct (build_maps_factory (range_start g) (range_end g) _ Hf ∅ ∅)
    as (rm & bn & Hbuild & Hgov & Hbn & Hval).
  assert (ban_free rm) as Hfree.
  { intros k x Hx. destruct (Hval _ _ Hx) as [[Hin Hk]|Hx0]; [|done].
    split; [|done]. by eapply Forall_forall in Hf. }
  destruct (expect_all_total rm bn
              (py_range (range_start g) (range_end g + 1))) with (out := (∅ : gmap Z string))
    as (m & Hrun & Hlook).
  { intros n _. destruct (expected_ban_free rm bn n Hfree)
      as (rendered & _ & [[_ He]|[_ (next & _ & He)]]); eauto. }
  exists rm, bn, m. split_and!; [done | | done | | | |].
  - unfold evaluate. by rewrite Hbuild.
  - intros n Hn. rewrite (Hgov n Hn). by destruct (governing _ n).
  - intros v. rewrite Hbn. split; [by intros [?|?] | by right].
  - intros n Hn. rewrite Hlook.
    rewrite bool_decide_eq_true_2 by (apply elem_of_py_range; lia).
    destruct (expected_ban_free rm bn n Hfree)
      as (rendered & _ & [[_ He]|[_ (next & _ & He)]]);
      rewrite He; eauto.
  - intros n Hn. rewrite Hlook.
    rewrite bool_decide_eq_false_2; [done|].
    rewrite elem_of_py_range. lia.
Qed.

(** ** Stripping *)

Lemma drop_spaces_unfold backwards l :
  drop_spaces backwards l
  = match l with
    | [] => []
    | c1 :: l1 =>
        if space1 (code c1) then drop_spaces backwards l1
        else
          match l1 with
          | [] => l
          | c2 :: l2 =>
              if (if backwards then space2 (code c2) (code c1)
                  else space2 (code c1) (code c2))
              then drop_spaces backwards l2
              else
                match l2 with
                | [] => l
                | c3 :: l3 =>
                    if (if backwards then space3 (code c3) (code c2) (code c1)
                        else space3 (code c1) (code c2) (code c3))
                    then drop_spaces backwards l3
                    else l
                end
          end
    end.
Proof. by destruct l. Qed.

Lemma drop_spaces_clean_bounded backwards n l :
  (length l ≤ n)%nat → starts_space backwards (drop_spaces backwards l) = false.
Proof.
  revert l. induction n as [|n IH]; intros l Hlen.
  { destruct l; [done | cbn in Hlen; lia]. }
  rewrite drop_spaces_unfold.
  destruct l as [|c1 l1]; [done|]. cbn in Hlen.
  destruct (space1 (code c1)) eqn:H1; [apply IH; lia|].
  destruct l1 as [|c2 l2]; [cbn; by rewrite H1|]. cbn in Hlen.
  destruct (if backwards then space2 _ _ else _) eqn:H2; [apply IH; lia|].
  destruct l2 as [|c3 l3]; [cbn; by rewrite H1, H2|]. cbn in Hlen.
  destruct (if backwards then space3 _ _ _ else _) eqn:H3; [apply IH; lia|].
  cbn. by rewrite H1, H2, H3.
Qed.

Lemma drop_spaces_clean backwards l :
  starts_space backwards (drop_spaces backwards l) = false.
Proof. by apply (drop_spaces_clean_bounded backwards (length l)). Qed.

Lemma drop_spaces_id backwards l :
  starts_space backwards l = false → drop_spaces backwards l = l.
Proof.
  rewrite drop_spaces_unfold.
  destruct l as [|c1 [|c2 [|c3 l3]]]; cbn; [done|..].
  - rewrite orb_false_r. by intros ->.
  - rewrite orb_false_r. intros [-> ->]%orb_false_iff. done.
  - intros [-> [-> ->]%orb_false_iff]%orb_false_iff. done.
Qed.

Lemma drop_spaces_suffix_bounded backwards n l :
  (length l ≤ n)%nat → drop_spaces backwards l `suffix_of` l.
Proof.
  revert l. induction n as [|n IH]; intros l Hlen.
  { destruct l; [done | cbn in Hlen; lia]. }
  rewrite drop_spaces_unfold.
  destruct l as [|c1 l1]; [done|]. cbn in Hlen.
  destruct (space1 (code c1)); [apply suffix_cons_r, IH; lia|].
  destruct l1 as [|c2 l2]; [done|]. cbn in Hlen.
  destruct (if backwards then space2 _ _ else _);
    [do 2 apply suffix_cons_r; apply IH; lia|].
  destruct l2 as [|c3 l3]; [done|]. cbn in Hlen.
  destruct (if backwards then space3 _ _ _ else _); [|done].
  do 3 apply suffix_cons_r. apply IH. lia.
Qed.

Lemma starts_space_prefix p t :
  p `prefix_of` t → starts_space false p = true → starts_space false t = true.
Proof.
  intros [k ->]. destruct p as [|c1 [|c2 [|c3 p3]]]; cbn; [done|..].
  - rewrite orb_false_r. by intros ->.
  - rewrite orb_false_r. intros [->| ->]%orb_true_iff; [done|].
    by rewrite orb_true_r.
  - done.
Qed.

(** Stripping a stripped string changes nothing. *)
Lemma strip_idemp s : strip (strip s) = strip s.
Proof.
  unfold strip. rewrite list_ascii_of_string_of_list_ascii.
  set (t := drop_spaces false (list_ascii_of_string s)).
  set (u := rev (drop_spaces true (rev t))).
  assert (drop_spaces false u = u) as ->.
  { apply drop_spaces_id.
    destruct (starts_space false u) eqn:Hu; [|done].
    assert (u `prefix_of` t) as Hpre.
    { destruct (drop_spaces_suffix_bounded true (length (rev t)) (rev t))
        as [k Hk]; [done|].
      exists (rev k). unfold u.
      rewrite <- rev_app_distr, <- Hk. by rewrite rev_involutive. }
    pose proof (starts_space_prefix _ _ Hpre Hu) as Ht.
    unfold t in Ht. by rewrite drop_spaces_clean in Ht. }
  unfold u. rewrite rev_involutive.
  by rewrite (drop_spaces_id true) by apply drop_spaces_clean.
Qed.

(** The round against the labels: the player wins it exactly when the
    moves start with the expected strings of the numbers, in order. *)
Lemma play_labels rm bn nums labels :
  Forall2 (λ n label, expected rm bn n = Return label) nums labels →
  ∀ moves, play rm bn nums moves
           = Return (bool_decide (labels `prefix_of` strip <$> moves)).
Proof.
  induction 1 as [|n label nums labels Hn _ IH]; intros moves.
  - cbn. rewrite bool_decide_eq_true_2; [done | apply prefix_nil].
  - cbn -[strip]. rewrite Hn. cbn -[strip]. destruct moves as [|move moves].
    + rewrite bool_decide_eq_false_2; [done | apply prefix_nil_not].
    + rewrite fmap_cons.
      destruct (String.eqb_spec (strip move) label) as [<-|Hne].
      * rewrite IH. f_equal. apply bool_decide_ext.
        split; [apply prefix_cons | apply prefix_cons_inv_2].
      * rewrite bool_decide_eq_false_2; [done|].
        intros Hp. by apply prefix_cons_inv_1 in Hp.
Qed.

(** ** The conflict checker on factory rules *)

Lemma banned_numbers_factory active :
  Forall from_factory active →
  ∃ bn, ConflictChecker.banned_numbers active = Return bn
        ∧ ∀ v, v ∈ bn ↔ ban_targets active v.
Proof.
  induction 1 as [|r active Hr _ (bn & Hbn & Hspec)].
  - exists ∅. split; [done|]. intros v. split; [done|].
    intros (r & Hin & _). by apply not_elem_of_nil in Hin.
  - assert (∀ v, ban_targets (r :: active) v
                 ↔ (kind r = "ban" ∧ params r !! "num" = Some v)
                   ∨ ban_targets active v) as Hcons.
    { intros v. unfold ban_targets. split.
      - intros (x & Hin & Hk & Hp).
        apply elem_of_cons in Hin as [->|Hin]; [by left | right; by exists x].
      - intros [[Hk Hp]|(x & Hin & Hk & Hp)].
        + exists r. split_and!; [left | done | done].
        + exists x. split_and!; [by right | done | done]. }
    factory_cases Hr;
      try (exists bn; split; [exact Hbn|]; intros v;
           rewrite Hcons, Hspec; split; [by right | by intros [[? _]|?]]).
    exists ({[PInt num]} ∪ bn). split.
    + change (ConflictChecker.banned_numbers (Rules.ban num :: active))
        with (s ←? ConflictChecker.banned_numbers active;
              Return ({[PInt num]} ∪ s)).
      by rewrite Hbn.
    + intros v. rewrite Hcons, elem_of_union, elem_of_singleton, Hspec.
      change (params (Rules.ban num) !! "num") with (Some (PInt num)).
      split; (intros [Hv|?]; [left | by right]).
      * split; [done | congruence].
      * destruct Hv as [_ Hv]. congruence.
Qed.

Lemma find_identical_Some proposed active existing :
  List.find (ConflictChecker.identical proposed) active = Some existing →
  existing ∈ active
  ∧ kind existing = kind proposed ∧ params existing = params proposed.
Proof.
  intros Hfind. apply find_some in Hfind as [Hin Hid].
  apply andb_true_iff in Hid as [Hk Hp].
  split_and!; [by apply list_elem_of_In | by apply String.eqb_eq
              | by apply bool_decide_eq_true in Hp].
Qed.

Lemma find_identical_None proposed active :
  List.find (ConflictChecker.identical proposed) active = None
  ↔ ∀ x, x ∈ active → ConflictChecker.identical proposed x = false.
Proof.
  split.
  - intros Hfind x Hin. apply (find_none _ _ Hfind). by apply list_elem_of_In.
  - intros Hall. destruct (List.find _ active) as [x|] eqn:Hfind; [|done].
    apply find_some in Hfind as [Hin Hid].
    rewrite Hall in Hid by (by apply list_elem_of_In). done.
Qed.

Lemma append_truthy s c t : truthy (Some (s +:+ String c t)) = true.
Proof. by destruct s. Qed.

Lemma duplicate_message_truthy existing :
  truthy (Some (ConflictChecker.duplicate_message existing)) = true.
Proof. done. Qed.

Lemma replace_message_truthy v :
  truthy (Some (ConflictChecker.replace_message v)) = true.
Proof. apply append_truthy. Qed.

Lemma swap_message_truthy v :
  truthy (Some (ConflictChecker.swap_message v)) = true.
Proof. apply append_truthy. Qed.

(** A rejected candidate leaves the game as it was. *)
Lemma try_add_rejects g entry msg :
  ConflictChecker.check (active_rules g) entry = Return (Some msg) →
  truthy (Some msg) = true →
  try_add g entry = Return (false, g).
Proof. intros Hc Ht. unfold try_add. rewrite Hc. cbn -[truthy]. by rewrite Ht. Qed.

Lemma try_add_accepts g entry :
  ConflictChecker.check (active_rules g) entry = Return None →
  try_add g entry
  = Return (true, with_rules g (active_rules g ++ [entry])).
Proof. intros Hc. unfold try_add. by rewrite Hc. Qed.

(** The check of a duplicate. *)
Lemma check_duplicate active proposed :
  Forall from_factory active →
  (∃ e, e ∈ active ∧ kind e = kind proposed ∧ params e = params proposed) →
  ∃ existing,
    existing ∈ active
    ∧ kind existing = kind proposed ∧ params existing = params proposed
    ∧ ConflictChecker.check active proposed
      = Return (Some (ConflictChecker.duplicate_message existing)).
Proof.
  intros Hf (e & Hin & Hk & Hp).
  destruct (banned_numbers_factory active Hf) as (bn & Hbn & _).
  destruct (List.find (ConflictChecker.identical proposed) active)
    as [existing|] eqn:Hfind.
  - destruct (find_identical_Some _ _ _ Hfind) as (Hin' & Hk' & Hp').
    exists existing. split_and!; [done..|].
    unfold ConflictChecker.check. rewrite Hbn. cbn. by rewrite Hfind.
  - exfalso. rewrite find_identical_None in Hfind.
    specialize (Hfind e Hin). unfold ConflictChecker.identical in Hfind.
    rewrite Hk, String.eqb_refl, bool_decide_eq_true_2 in Hfind; done.
Qed.

(** The check of a replace or a swap that duplicates no active rule. *)
Lemma check_replace_fresh active num text bn :
  ConflictChecker.banned_numbers active = Return bn →
  List.find (ConflictChecker.identical (Rules.replace num text)) active = None →
  ConflictChecker.check active (Rules.replace num text)
  = Return (if bool_decide (PInt num ∈ bn)
            then Some (ConflictChecker.replace_message (PInt num))
            else None).
Proof.
  intros Hbn Hfind. unfold ConflictChecker.check. rewrite Hbn. cbn -[List.find].
  rewrite Hfind.
  change (get (Rules.replace num text) "num") with (Return (PInt num)).
  cbn. by case_bool_decide.
Qed.

Lemma check_swap_fresh active a b bn :
  ConflictChecker.banned_numbers active = Return bn →
  List.find (ConflictChecker.identical (Rules.swap a b)) active = None →
  ConflictChecker.check active (Rules.swap a b)
  = Return (if bool_decide (PInt a ∈ bn)
            then Some (ConflictChecker.swap_message (PInt a))
            else if bool_decide (PInt b ∈ bn)
            then Some (ConflictChecker.swap_message (PInt b))
            else None).
Proof.
  intros Hbn Hfind. unfold ConflictChecker.check. rewrite Hbn. cbn -[List.find].
  rewrite Hfind.
  change (get (Rules.swap a b) "a") with (Return (PInt a)).
  change (get (Rules.swap a b) "b") with (Return (PInt b)).
  cbn. by repeat case_bool_decide.
Qed.

(** * The claims *)

(** ** The value object and the factory *)

(** C3: [render] fails with the banned-number exception, whose message
    carries the number of the value, exactly when the banned flag is
    set, and it raises nothing else; when the flag is clear it returns
    the tags joined by single spaces if there is a tag, and the decimal
    string of the number if there is none. *)
Theorem render_spec (rv : RuleValue) :
  (render rv = Raise (BannedNumberError (number rv)) ↔ banned rv = true)
  ∧ (∀ e, render rv = Raise e →
       e = Exception ("Game Over ❌ — " +:+ str (number rv) +:+ " is banned"))
  ∧ render rv ≠ OutOfFuel
  ∧ (banned rv = false → tags rv ≠ [] →
       render rv = Return (String.concat " " (tags rv)))
  ∧ (banned rv = false → tags rv = [] →
       render rv = Return (str (number rv))).
Proof.
  unfold render. destruct (banned rv), (tags rv); split_and!; try done;
    intros e [= <-]; done.
Qed.

(** C7: constructing [divisible(0, text)] raises the [ValueError] of the
    factory, so that no rule exists to be checked or inserted:
    [add_custom_rule] returns the game unchanged; for a divisor other
    than zero the construction succeeds, and the transformation tags a
    value with [text] exactly when its number modulo the divisor is 0:
    it then appends [text] to the tags of the value, and otherwise
    leaves them as they are, the number and the banned flag being kept
    in both cases; so a fresh value renders as [text] when the divisor
    divides its number and as its number otherwise. *)
Theorem divisible_spec :
  (∀ text, Rules.divisible 0 text = Raise (ValueError "Divisor cannot be zero."))
  ∧ (∀ g text, add_custom_rule g (λ _, Rules.divisible 0 text) = Return g)
  ∧ (∀ divisor text, divisor ≠ 0 →
       ∃ r, Rules.divisible divisor text = Return r
            ∧ kind r = "divisible"
            ∧ (∀ rv, tags (fn r rv)
                     = (if number rv mod divisor =? 0
                        then tags rv ++ [text] else tags rv)%list
                     ∧ number (fn r rv) = number rv
                     ∧ banned (fn r rv) = banned rv)
            ∧ ∀ n, render (fn r (fresh n))
                   = Return (if n mod divisor =? 0 then text else str n)).
Proof.
  split_and!; [done | done |].
  intros divisor text Hd. unfold Rules.divisible.
  destruct (Z.eqb_spec divisor 0) as [|Hne]; [done|]. eexists.
  split; [done|]. split; [done|]. split.
  - intros rv. cbn. by destruct (number rv mod divisor =? 0).
  - intros n. cbn. by destruct (n mod divisor =? 0).
Qed.

Lemma divisible_spec_witness :
  ∃ r, Rules.divisible 3 "Fizz" = Return r
       ∧ kind r = "divisible"
       ∧ (∀ rv, tags (fn r rv)
                = (if number rv mod 3 =? 0
                   then tags rv ++ ["Fizz"] else tags rv)%list
                ∧ number (fn r rv) = number rv
                ∧ banned (fn r rv) = banned rv)
       ∧ ∀ n, render (fn r (fresh n))
              = Return (if n mod 3 =? 0 then "Fizz" else str n).
Proof.
  apply (proj2 (proj2 divisible_spec) 3 "Fizz"). lia.
Defined.

(** C8: for distinct [a] and [b], the transformation of [swap(a, b)]
    turns a fresh value for [a] into one that renders as the decimal
    string of [b] (and a fresh value for [b] into one that renders as
    that of [a]); being a function of the value alone it gives [b] at
    every application to a fresh [a], and one application makes one
    substitution: the number is [b], not [a] again, which takes a second
    application to the result. *)
Theorem swap_once (a b : Z) :
  a ≠ b →
  render (fn (Rules.swap a b) (fresh a)) = Return (str b)
  ∧ render (fn (Rules.swap a b) (fresh b)) = Return (str a)
  ∧ number (fn (Rules.swap a b) (fresh a)) = b
  ∧ number (fn (Rules.swap a b) (fresh a)) ≠ a
  ∧ fn (Rules.swap a b) (fn (Rules.swap a b) (fresh a)) = fresh a.
Proof.
  intros Hab. cbn. rewrite Z.eqb_refl. cbn.
  rewrite (proj2 (Z.eqb_neq b a)) by done. rewrite !Z.eqb_refl. cbn.
  split_and!; done.
Qed.

Lemma swap_once_witness :
  render (fn (Rules.swap 6 9) (fresh 6)) = Return (str 9)
  ∧ render (fn (Rules.swap 6 9) (fresh 9)) = Return (str 6)
  ∧ number (fn (Rules.swap 6 9) (fresh 6)) = 9
  ∧ number (fn (Rules.swap 6 9) (fresh 6)) ≠ 6
  ∧ fn (Rules.swap 6 9) (fn (Rules.swap 6 9) (fresh 6)) = fresh 6.
Proof. apply (swap_once 6 9). lia. Defined.

Lemma render_spec_witness :
  render (ban_value (fresh 4)) = Raise (BannedNumberError 4)
  ∧ render (tag (tag (fresh 15) "Fizz") "Buzz") = Return "Fizz Buzz"
  ∧ render (fresh 7) = Return "7".
Proof.
  split_and!.
  - by apply (proj1 (render_spec (ban_value (fresh 4)))).
  - by apply (proj1 (proj2 (proj2 (proj2
                (render_spec (tag (tag (fresh 15) "Fizz") "Buzz")))))).
  - by apply (proj2 (proj2 (proj2 (proj2 (render_spec (fresh 7)))))).
Defined.

(** ** Evaluation *)

(** The value the specification renders for [n]: a fresh value, through
    the transformation of the governing rule when there is one. *)
Definition governed_value (rules : list RuleEntry) (n : Z) : RuleValue :=
  match governing rules n with
  | Some r => fn r (fresh n)
  | None => fresh n
  end.

(** C1, as the code has it: precedence is last-writer-wins per number
    over insertion order.  For a collection of factory rules and a number
    of the range that no ban rule targets, [evaluate] gives the rendering
    of the value transformed by the last rule in collection order that
    can affect the number (the plain number when there is none).  With
    [swap(6,9)] then [divisible(3,"Fizz")] on the range 1..9 the last
    rule that can affect 6 is the divisible one, so the label of 6 is
    "Fizz"; inserted the other way round it is "9". *)
Theorem last_writer_wins :
  (∀ g n,
     Forall from_factory (active_rules g) →
     range_start g ≤ n ≤ range_end g →
     banned_by (active_rules g) n = false →
     ∃ m text,
       evaluate g = Return m
       ∧ render (governed_value (active_rules g) n) = Return text
       ∧ m !! n = Some text)
  ∧ (fizz ←? Rules.divisible 3 "Fizz";
     evaluate_at (game [Rules.swap 6 9; fizz] 1 9) 6) = Return (Some "Fizz")
  ∧ (fizz ←? Rules.divisible 3 "Fizz";
     evaluate_at (game [fizz; Rules.swap 6 9] 1 9) 6) = Return (Some "9").
Proof.
  split_and!; [|by vm_compute..].
  intros g n Hf Hn Hfree.
  destruct (evaluate_factory g Hf)
    as (rm & bn & m & _ & Hev & Hrm & Hgov & Hbn & Hin & _).
  destruct (Hin n Hn) as (text & Hexp & Hm).
  exists m, text. split_and!; [done | | done].
  destruct (expected_ban_free rm bn n Hrm)
    as (rendered & Hr & [[_ He]|[Hb _]]).
  - unfold governed_value. rewrite <- (Hgov n Hn).
    unfold transformed in Hr. congruence.
  - apply Hbn in Hb. by apply not_banned_by_spec in Hfree.
Qed.

(** C1, as the claim words it, fails: with [swap(6,9)] then
    [divisible(3,"Fizz")] on the range 1..9 the label of 6 is not "9". *)
Lemma swap_then_fizz_not_9 :
  (fizz ←? Rules.divisible 3 "Fizz";
   evaluate_at (game [Rules.swap 6 9; fizz] 1 9) 6) ≠ Return (Some "9").
Proof. by vm_compute. Qed.

Lemma last_writer_wins_witness :
  ∃ m text,
    evaluate (game [Rules.swap 6 9; Rules.odd "Odd"] 1 9) = Return m
    ∧ render (governed_value [Rules.swap 6 9; Rules.odd "Odd"] 7) = Return text
    ∧ m !! 7 = Some text.
Proof.
  apply (proj1 last_writer_wins (game [Rules.swap 6 9; Rules.odd "Odd"] 1 9) 7).
  - repeat constructor.
  - cbn. lia.
  - reflexivity.
Defined.

(** C2: the ban cascade.  For a collection of factory rules, every
    number [n] of the range that a ban rule targets is mapped by
    [evaluate] to the decimal string of the nearest following number
    that no ban rule targets: every number strictly between the two is
    banned.  The rendering computed from the rule map is discarded (4 is
    labelled "5" even when a replace rule governs it).  With the range
    1..10 and the single rule [ban(4)], 4 is labelled "5", 5 is labelled
    "5" and 3 is labelled "3". *)
Theorem ban_cascade :
  (∀ g n,
     Forall from_factory (active_rules g) →
     range_start g ≤ n ≤ range_end g →
     banned_by (active_rules g) n = true →
     ∃ m next,
       evaluate g = Return m
       ∧ m !! n = Some (str next)
       ∧ n < next
       ∧ banned_by (active_rules g) next = false
       ∧ ∀ k, n < k < next → banned_by (active_rules g) k = true)
  ∧ evaluate_at (game [Rules.ban 4] 1 10) 4 = Return (Some "5")
  ∧ evaluate_at (game [Rules.ban 4] 1 10) 5 = Return (Some "5")
  ∧ evaluate_at (game [Rules.ban 4] 1 10) 3 = Return (Some "3")
  ∧ evaluate_at (game [Rules.replace 4 "four"; Rules.ban 4] 1 10) 4
    = Return (Some "5").
Proof.
  split_and!; [|by vm_compute..].
  intros g n Hf Hn Hban.
  destruct (evaluate_factory g Hf)
    as (rm & bn & m & _ & Hev & Hrm & _ & Hbn & Hin & _).
  destruct (Hin n Hn) as (text & Hexp & Hm).
  destruct (expected_ban_free rm bn n Hrm)
    as (rendered & _ & [[Hout _]|[_ (next & Hscan & He)]]).
  { exfalso. apply Hout, Hbn. by apply banned_by_spec. }
  apply scan_result in Hscan as (Hle & Hnext & Hall).
  exists m, next. split_and!; [done | congruence | lia | |].
  - apply not_banned_by_spec. by rewrite <- Hbn.
  - intros k Hk. apply banned_by_spec, Hbn, Hall. lia.
Qed.

Lemma ban_cascade_witness :
  ∃ m next,
    evaluate (game [Rules.ban 4; Rules.ban 5] 1 10) = Return m
    ∧ m !! 4 = Some (str next)
    ∧ 4 < next
    ∧ banned_by [Rules.ban 4; Rules.ban 5] next = false
    ∧ ∀ k, 4 < k < next → banned_by [Rules.ban 4; Rules.ban 5] k = true.
Proof.
  apply (proj1 ban_cascade (game [Rules.ban 4; Rules.ban 5] 1 10) 4).
  - repeat constructor.
  - cbn. lia.
  - reflexivity.
Defined.

(** C10: the forward scan of the cascade terminates: a budget of one
    more turn than there are banned numbers always yields the least
    non-banned number above [n], and a larger budget yields the same.
    The label can name a number outside the range: when the end of the
    range is banned, its label is the decimal string of a number
    strictly greater than the end; with the range 1..10 and the single
    rule [ban(10)], 10 is labelled "11". *)
Theorem cascade_leaves_range :
  (∀ (bn : gset pval) n,
     ∃ next,
       scan (S (size bn)) bn (n + 1) = Return next
       ∧ n < next
       ∧ (PInt next ∉ bn)
       ∧ (∀ k, n < k < next → PInt k ∈ bn)
       ∧ ∀ fuel, (S (size bn) ≤ fuel)%nat →
           scan fuel bn (n + 1) = Return next)
  ∧ (∀ g,
       Forall from_factory (active_rules g) →
       range_start g ≤ range_end g →
       banned_by (active_rules g) (range_end g) = true →
       ∃ m next,
         evaluate g = Return m
         ∧ m !! range_end g = Some (str next)
         ∧ range_end g < next)
  ∧ evaluate_at (game [Rules.ban 10] 1 10) 10 = Return (Some "11").
Proof.
  split_and!; [| |by vm_compute].
  - intros bn n. destruct (scan_total bn (n + 1)) as [next Hs].
    exists next. destruct (scan_result _ _ _ _ Hs) as (Hle & Hout & Hall).
    split_and!; [done | lia | done | |].
    + intros k Hk. apply Hall. lia.
    + intros fuel Hfuel. by eapply scan_more_fuel.
  - intros g Hf Hrange Hban.
    destruct (evaluate_factory g Hf)
      as (rm & bn & m & _ & Hev & Hrm & _ & Hbn & Hin & _).
    destruct (Hin (range_end g)) as (text & Hexp & Hm); [lia|].
    destruct (expected_ban_free rm bn (range_end g) Hrm)
      as (rendered & _ & [[Hout _]|[_ (next & Hscan & He)]]).
    { exfalso. apply Hout, Hbn. by apply banned_by_spec. }
    apply scan_result in Hscan as (Hle & _ & _).
    exists m, next. split_and!; [done | congruence | lia].
Qed.

Lemma cascade_leaves_range_witness :
  ∃ m next,
    evaluate (game [Rules.ban 10; Rules.ban 11] 1 10) = Return m
    ∧ m !! 10 = Some (str next)
    ∧ 10 < next.
Proof.
  apply (proj1 (proj2 cascade_leaves_range)
           (game [Rules.ban 10; Rules.ban 11] 1 10)).
  - repeat constructor.
  - cbn. lia.
  - reflexivity.
Defined.

(** C6: for a collection built from the six constructors of the factory
    and any range, the [render] call of the evaluation never raises the
    banned-number exception: building the maps succeeds, no ban rule
    enters the rule map, no other rule of the collection sets the banned
    flag, so the value rendered for any number has a clear flag and
    [render] returns; the whole evaluation returns a mapping. *)
Theorem render_never_banned (g : RuleGame) :
  Forall from_factory (active_rules g) →
  ∃ rm bn m,
    build_maps (range_start g) (range_end g) (active_rules g) (∅, ∅)
    = Return (rm, bn)
    ∧ evaluate g = Return m
    ∧ (∀ k x, rm !! k = Some x → kind x ≠ "ban")
    ∧ (∀ r rv, r ∈ active_rules g → kind r ≠ "ban" →
         banned (fn r rv) = banned rv)
    ∧ (∀ n, banned (transformed rm n) = false
            ∧ (∃ text, render (transformed rm n) = Return text)
            ∧ ∀ num, render (transformed rm n) ≠ Raise (BannedNumberError num)).
Proof.
  intros Hf.
  destruct (evaluate_factory g Hf)
    as (rm & bn & m & Hbuild & Hev & Hrm & _).
  exists rm, bn, m. split_and!; [done | done | | |].
  - intros k x Hx. by destruct (Hrm _ _ Hx).
  - intros r rv Hin Hk. apply fn_keeps_flag; [|done].
    by eapply Forall_forall in Hf.
  - intros n.
    destruct (render_not_banned _ (transformed_not_banned rm n Hrm))
      as [text Hr].
    split_and!; [by apply transformed_not_banned | by exists text |].
    intros num. by rewrite Hr.
Qed.

Lemma render_never_banned_witness :
  ∃ rm bn m,
    build_maps 1 10 [Rules.swap 4 9; Rules.ban 4; Rules.even "Even"] (∅, ∅)
    = Return (rm, bn)
    ∧ evaluate (game [Rules.swap 4 9; Rules.ban 4; Rules.even "Even"] 1 10)
      = Return m
    ∧ (∀ k x, rm !! k = Some x → kind x ≠ "ban")
    ∧ (∀ r rv, r ∈ [Rules.swap 4 9; Rules.ban 4; Rules.even "Even"] →
         kind r ≠ "ban" → banned (fn r rv) = banned rv)
    ∧ (∀ n, banned (transformed rm n) = false
            ∧ (∃ text, render (transformed rm n) = Return text)
            ∧ ∀ num, render (transformed rm n) ≠ Raise (BannedNumberError num)).
Proof.
  apply (render_never_banned
           (game [Rules.swap 4 9; Rules.ban 4; Rules.even "Even"] 1 10)).
  repeat constructor.
Defined.

(** ** Conflicts *)

(** C5: for a collection of factory rules and any candidate, when an
    active rule has the kind and the params of the candidate the check
    returns the message that names such an existing rule, and [try_add]
    rejects the candidate and leaves the game as it was; so a rule that
    was just added is rejected when it is added again. *)
Theorem duplicate_rejected :
  (∀ g candidate,
     Forall from_factory (active_rules g) →
     (∃ e, e ∈ active_rules g
           ∧ kind e = kind candidate ∧ params e = params candidate) →
     ∃ existing,
       existing ∈ active_rules g
       ∧ kind existing = kind candidate ∧ params existing = params candidate
       ∧ ConflictChecker.check (active_rules g) candidate
         = Return (Some ("An identical rule already exists → ["
                         +:+ description existing +:+ "]"))
       ∧ try_add g candidate = Return (false, g))
  ∧ (∀ g g' r,
       Forall from_factory (active_rules g) → from_factory r →
       try_add g r = Return (true, g') →
       try_add g' r = Return (false, g')).
Proof.
  assert (∀ g candidate,
     Forall from_factory (active_rules g) →
     (∃ e, e ∈ active_rules g
           ∧ kind e = kind candidate ∧ params e = params candidate) →
     ∃ existing,
       existing ∈ active_rules g
       ∧ kind existing = kind candidate ∧ params existing = params candidate
       ∧ ConflictChecker.check (active_rules g) candidate
         = Return (Some (ConflictChecker.duplicate_message existing))
       ∧ try_add g candidate = Return (false, g)) as Hdup.
  { intros g candidate Hf He.
    destruct (check_duplicate _ _ Hf He) as (existing & Hin & Hk & Hp & Hc).
    exists existing. split_and!; [done..|].
    eapply try_add_rejects; [exact Hc | apply duplicate_message_truthy]. }
  split; [exact Hdup|].
  intros g g' r Hf Hr Hadd.
  assert (g' = with_rules g (active_rules g ++ [r])) as ->.
  { unfold try_add in Hadd.
    destruct (ConflictChecker.check (active_rules g) r) as [c| |]; [|done..].
    cbn -[truthy] in Hadd. destruct (truthy c); congruence. }
  destruct (Hdup (with_rules g (active_rules g ++ [r])) r)
    as (_ & _ & _ & _ & _ & Hrej); [| |done].
  - cbn. apply Forall_app. split; [done | by constructor].
  - exists r. cbn. split_and!; [|done..].
    apply elem_of_app. right. apply list_elem_of_here.
Qed.

Lemma duplicate_rejected_witness :
  try_add (game [Rules.swap 6 9; Rules.ban 4] 1 10) (Rules.ban 4)
  = Return (false, game [Rules.swap 6 9; Rules.ban 4] 1 10)
  ∧ try_add (game [Rules.swap 6 9; Rules.ban 4] 1 10) (Rules.ban 4)
    = Return (false, game [Rules.swap 6 9; Rules.ban 4] 1 10).
Proof.
  split.
  - destruct (proj1 duplicate_rejected
                (game [Rules.swap 6 9; Rules.ban 4] 1 10) (Rules.ban 4))
      as (existing & _ & _ & _ & _ & Hrej).
    + repeat constructor.
    + exists (Rules.ban 4). split_and!; [|reflexivity..].
      right. left.
    + exact Hrej.
  - apply (proj2 duplicate_rejected (game [Rules.swap 6 9] 1 10)).
    + repeat constructor.
    + constructor.
    + reflexivity.
Defined.

(** C4: the conflict check against banned numbers.  For a collection of
    factory rules: a [replace] whose target is banned is rejected, with
    the banned-number message or, if an identical rule is active, the
    duplicate message; a [swap] with a banned endpoint is rejected
    likewise; a [swap] whose endpoints are both free passes the check:
    it is accepted unless it duplicates an active rule.  With [ban(6)]
    active, [swap(6,9)] is rejected and [swap(5,9)] is accepted. *)
Theorem banned_conflicts :
  (∀ g n text,
     Forall from_factory (active_rules g) →
     banned_by (active_rules g) n = true →
     ∃ msg,
       ConflictChecker.check (active_rules g) (Rules.replace n text)
       = Return (Some msg)
       ∧ (msg = str n +:+ " is already banned — a replace rule for it would never fire"
          ∨ ∃ existing, existing ∈ active_rules g
                        ∧ msg = ConflictChecker.duplicate_message existing)
       ∧ try_add g (Rules.replace n text) = Return (false, g))
  ∧ (∀ g a b,
       Forall from_factory (active_rules g) →
       banned_by (active_rules g) a || banned_by (active_rules g) b = true →
       ∃ msg,
         ConflictChecker.check (active_rules g) (Rules.swap a b)
         = Return (Some msg)
         ∧ (msg = str a +:+ " is already banned — it cannot participate in a swap"
            ∨ msg = str b +:+ " is already banned — it cannot participate in a swap"
            ∨ ∃ existing, existing ∈ active_rules g
                          ∧ msg = ConflictChecker.duplicate_message existing)
         ∧ try_add g (Rules.swap a b) = Return (false, g))
  ∧ (∀ g a b,
       Forall from_factory (active_rules g) →
       banned_by (active_rules g) a = false →
       banned_by (active_rules g) b = false →
       List.find (ConflictChecker.identical (Rules.swap a b)) (active_rules g)
       = None →
       ConflictChecker.check (active_rules g) (Rules.swap a b) = Return None
       ∧ try_add g (Rules.swap a b)
         = Return (true, with_rules g (active_rules g ++ [Rules.swap a b])))
  ∧ try_add (game [Rules.ban 6] 1 10) (Rules.swap 6 9)
    = Return (false, game [Rules.ban 6] 1 10)
  ∧ try_add (game [Rules.ban 6] 1 10) (Rules.swap 5 9)
    = Return (true, game [Rules.ban 6; Rules.swap 5 9] 1 10).
Proof.
  split_and!; [| | |reflexivity..].
  - intros g n text Hf Hban.
    destruct (banned_numbers_factory _ Hf) as (bn & Hbn & Hspec).
    apply banned_by_spec, Hspec in Hban.
    destruct (List.find (ConflictChecker.identical (Rules.replace n text))
                (active_rules g)) as [existing|] eqn:Hfind.
    + destruct (find_identical_Some _ _ _ Hfind) as (Hin & Hk & Hp).
      destruct (check_duplicate (active_rules g) (Rules.replace n text) Hf)
        as (e & Hine & _ & _ & Hc); [by exists existing|].
      eexists. split_and!; [exact Hc | right; by exists e |].
      eapply try_add_rejects; [exact Hc | apply duplicate_message_truthy].
    + pose proof (check_replace_fresh _ _ _ _ Hbn Hfind) as Hc.
      rewrite bool_decide_eq_true_2 in Hc by done.
      eexists. split_and!; [exact Hc | by left |].
      eapply try_add_rejects; [exact Hc | apply replace_message_truthy].
  - intros g a b Hf Hban.
    destruct (banned_numbers_factory _ Hf) as (bn & Hbn & Hspec).
    destruct (List.find (ConflictChecker.identical (Rules.swap a b))
                (active_rules g)) as [existing|] eqn:Hfind.
    + destruct (find_identical_Some _ _ _ Hfind) as (Hin & Hk & Hp).
      destruct (check_duplicate (active_rules g) (Rules.swap a b) Hf)
        as (e & Hine & _ & _ & Hc); [by exists existing|].
      eexists. split_and!; [exact Hc | right; right; by exists e |].
      eapply try_add_rejects; [exact Hc | apply duplicate_message_truthy].
    + pose proof (check_swap_fresh _ _ _ _ Hbn Hfind) as Hc.
      case_bool_decide as Ha.
      * eexists. split_and!; [exact Hc | by left |].
        eapply try_add_rejects; [exact Hc | apply swap_message_truthy].
      * assert (PInt b ∈ bn) as Hb.
        { apply orb_true_iff in Hban as [Hban|Hban];
            apply banned_by_spec, Hspec in Hban; done. }
        rewrite bool_decide_eq_true_2 in Hc by done.
        eexists. split_and!; [exact Hc | right; by left |].
        eapply try_add_rejects; [exact Hc | apply swap_message_truthy].
  - intros g a b Hf Ha Hb Hfind.
    destruct (banned_numbers_factory _ Hf) as (bn & Hbn & Hspec).
    pose proof (check_swap_fresh _ _ _ _ Hbn Hfind) as Hc.
    apply not_banned_by_spec in Ha, Hb. rewrite <- Hspec in Ha, Hb.
    rewrite !bool_decide_eq_false_2 in Hc by done.
    split; [done | by apply try_add_accepts].
Qed.

Lemma banned_conflicts_witness :
  (∃ msg,
     ConflictChecker.check [Rules.swap 6 9; Rules.ban 4] (Rules.replace 4 "x")
     = Return (Some msg)
     ∧ (msg = str 4 +:+ " is already banned — a replace rule for it would never fire"
        ∨ ∃ existing, existing ∈ [Rules.swap 6 9; Rules.ban 4]
                      ∧ msg = ConflictChecker.duplicate_message existing)
     ∧ try_add (game [Rules.swap 6 9; Rules.ban 4] 1 10) (Rules.replace 4 "x")
       = Return (false, game [Rules.swap 6 9; Rules.ban 4] 1 10))
  ∧ (∃ msg,
       ConflictChecker.check [Rules.swap 6 9; Rules.ban 4] (Rules.swap 3 4)
       = Return (Some msg)
       ∧ (msg = str 3 +:+ " is already banned — it cannot participate in a swap"
          ∨ msg = str 4 +:+ " is already banned — it cannot participate in a swap"
          ∨ ∃ existing, existing ∈ [Rules.swap 6 9; Rules.ban 4]
                        ∧ msg = ConflictChecker.duplicate_message existing)
       ∧ try_add (game [Rules.swap 6 9; Rules.ban 4] 1 10) (Rules.swap 3 4)
         = Return (false, game [Rules.swap 6 9; Rules.ban 4] 1 10))
  ∧ (ConflictChecker.check [Rules.swap 6 9; Rules.ban 4] (Rules.swap 5 7)
     = Return None
     ∧ try_add (game [Rules.swap 6 9; Rules.ban 4] 1 10) (Rules.swap 5 7)
       = Return (true, game [Rules.swap 6 9; Rules.ban 4; Rules.swap 5 7] 1 10)).
Proof.
  split; [|split].
  - apply (proj1 banned_conflicts (game [Rules.swap 6 9; Rules.ban 4] 1 10));
      [repeat constructor | reflexivity].
  - apply (proj1 (proj2 banned_conflicts)
             (game [Rules.swap 6 9; Rules.ban 4] 1 10));
      [repeat constructor | reflexivity].
  - apply (proj1 (proj2 (proj2 banned_conflicts))
             (game [Rules.swap 6 9; Rules.ban 4] 1 10));
      [repeat constructor | reflexivity..].
Defined.

(** ** Removal *)

Lemma pop_in_range (l : list RuleEntry) (i : Z) :
  0 ≤ i < Z.of_nat (length l) →
  ∃ r, l !! Z.to_nat i = Some r
       ∧ pop l i = Return (r, delete (Z.to_nat i) l).
Proof.
  intros Hi. unfold pop.
  rewrite (proj2 (Z.ltb_ge i 0)) by lia.
  rewrite (proj2 (Z.ltb_ge i 0)) by lia.
  rewrite (proj2 (Z.leb_gt _ _)) by lia. cbn.
  destruct (lookup_lt_is_Some_2 l (Z.to_nat i)) as [r Hr]; [lia|].
  exists r. by rewrite Hr.
Qed.

(** C9, as the code has it: [remove_rule] removes the rule at the
    1-based position it is given and reports it; when the position is
    not an integer of 1..count (and so whenever the collection is empty)
    it removes nothing, leaves the game as it was and reports the
    rejection as a message: "No rules to remove." for an empty
    collection, "Invalid number." otherwise.  It raises no exception:
    the guard keeps [pop] within bounds. *)
Theorem remove_rule_spec (g : RuleGame) (choice : option Z) :
  (∀ c, choice = Some c →
        1 ≤ c ≤ Z.of_nat (length (active_rules g)) →
        ∃ r, active_rules g !! Z.to_nat (c - 1) = Some r
             ∧ remove_rule g choice
               = Return (Removed r,
                         with_rules g (delete (Z.to_nat (c - 1)) (active_rules g))))
  ∧ ((∀ c, choice = Some c →
           ¬ (1 ≤ c ≤ Z.of_nat (length (active_rules g)))) →
     remove_rule g choice
     = Return (match active_rules g with
               | [] => NoRules
               | _ :: _ => InvalidNumber
               end, g))
  ∧ (∀ e, remove_rule g choice ≠ Raise e)
  ∧ remove_rule g choice ≠ OutOfFuel.
Proof.
  assert (∀ c, choice = Some c →
        1 ≤ c ≤ Z.of_nat (length (active_rules g)) →
        ∃ r, active_rules g !! Z.to_nat (c - 1) = Some r
             ∧ remove_rule g choice
               = Return (Removed r,
                         with_rules g (delete (Z.to_nat (c - 1)) (active_rules g))))
    as Hin.
  { intros c -> Hc.
    destruct (pop_in_range (active_rules g) (c - 1)) as (r & Hr & Hpop); [lia|].
    exists r. split; [done|]. unfold remove_rule.
    destruct (active_rules g) as [|r0 rest] eqn:Hl; [cbn in Hc; lia|].
    rewrite (proj2 (Z.leb_le 1 c)), (proj2 (Z.leb_le c _)) by lia.
    cbn [negb andb]. by rewrite Hpop. }
  assert ((∀ c, choice = Some c →
           ¬ (1 ≤ c ≤ Z.of_nat (length (active_rules g)))) →
     remove_rule g choice
     = Return (match active_rules g with
               | [] => NoRules
               | _ :: _ => InvalidNumber
               end, g)) as Hout.
  { intros Hc. unfold remove_rule.
    destruct (active_rules g) as [|r0 rest] eqn:Hl; [done|].
    destruct choice as [c|]; [|done]. specialize (Hc c eq_refl).
    destruct (1 <=? c) eqn:H1, (c <=? Z.of_nat (length (r0 :: rest))) eqn:H2;
      try done.
    apply Z.leb_le in H1, H2. lia. }
  split_and!; [done | done | |].
  - intros e He.
    destruct choice as [c|]; [|by rewrite Hout in He].
    destruct (decide (1 ≤ c ≤ Z.of_nat (length (active_rules g)))) as [Hc|Hc].
    + destruct (Hin c eq_refl Hc) as (r & _ & Hrm). by rewrite Hrm in He.
    + rewrite Hout in He; [done|]. by intros ? [= <-].
  - intros He.
    destruct choice as [c|]; [|by rewrite Hout in He].
    destruct (decide (1 ≤ c ≤ Z.of_nat (length (active_rules g)))) as [Hc|Hc].
    + destruct (Hin c eq_refl Hc) as (r & _ & Hrm). by rewrite Hrm in He.
    + rewrite Hout in He; [done|]. by intros ? [= <-].
Qed.

Lemma remove_rule_spec_witness :
  (∃ r, [Rules.swap 6 9; Rules.ban 4] !! Z.to_nat (2 - 1) = Some r
        ∧ remove_rule (game [Rules.swap 6 9; Rules.ban 4] 1 10) (Some 2)
          = Return (Removed r,
                    with_rules (game [Rules.swap 6 9; Rules.ban 4] 1 10)
                      (delete (Z.to_nat (2 - 1)) [Rules.swap 6 9; Rules.ban 4])))
  ∧ remove_rule (game [Rules.swap 6 9; Rules.ban 4] 1 10) (Some 0)
    = Return (InvalidNumber, game [Rules.swap 6 9; Rules.ban 4] 1 10).
Proof.
  split.
  - apply (proj1 (remove_rule_spec
                    (game [Rules.swap 6 9; Rules.ban 4] 1 10) (Some 2)) 2);
      [reflexivity | cbn; lia].
  - apply (proj1 (proj2 (remove_rule_spec
                    (game [Rules.swap 6 9; Rules.ban 4] 1 10) (Some 0)))).
    intros c [= <-]. cbn. lia.
Defined.

(** C9, as the claim words it, fails: an index out of 1..count raises no
    [IndexError], the call returns with the game unchanged, on an empty
    collection as on a non-empty one. *)
Lemma remove_rule_no_IndexError :
  remove_rule new_game (Some 1) ≠ Raise IndexError
  ∧ remove_rule new_game (Some 1) = Return (NoRules, new_game)
  ∧ remove_rule (game [Rules.ban 4] 1 10) (Some 2) ≠ Raise IndexError
  ∧ remove_rule (game [Rules.ban 4] 1 10) (Some 2)
    = Return (InvalidNumber, game [Rules.ban 4] 1 10).
Proof. split_and!; done. Qed.

(** * Further properties of the engine *)

(** ** The conflict checker, for any collection *)

Lemma ban_targets_cons r rules v :
  ban_targets (r :: rules) v ↔ bans r v ∨ ban_targets rules v.
Proof.
  unfold ban_targets, bans. split.
  - intros (x & Hin & Hk & Hp).
    apply elem_of_cons in Hin as [->|Hin]; [by left | right; by exists x].
  - intros [[Hk Hp]|(x & Hin & Hk & Hp)].
    + exists r. split_and!; [left | done | done].
    + exists x. split_and!; [by right | done | done].
Qed.

Lemma ban_targets_app rules1 rules2 v :
  ban_targets (rules1 ++ rules2) v
  ↔ ban_targets rules1 v ∨ ban_targets rules2 v.
Proof.
  unfold ban_targets. split.
  - intros (x & Hin & Hk). apply elem_of_app in Hin as [Hin|Hin];
      [left | right]; by exists x.
  - intros [(x & Hin & Hk)|(x & Hin & Hk)]; exists x;
      (split; [apply elem_of_app; (by left) || (by right) | done]).
Qed.

(** Whenever the set of the checker is built, it holds exactly the
    targets of the ban rules. *)
Lemma banned_numbers_targets active bn :
  ConflictChecker.banned_numbers active = Return bn →
  ∀ v, v ∈ bn ↔ ban_targets active v.
Proof.
  revert bn. induction active as [|r active IH]; intros bn Hbn v.
  - injection Hbn as <-. split; [done|].
    intros (r & Hin & _). by apply not_elem_of_nil in Hin.
  - rewrite ban_targets_cons. unfold bans. cbn in Hbn.
    destruct (String.eqb_spec (kind r) "ban") as [Hk|Hk].
    + unfold get in Hbn. destruct (params r !! "num") as [n|] eqn:Hn; [|done].
      cbn in Hbn.
      destruct (ConflictChecker.banned_numbers active) as [s| |]; [|done..].
      injection Hbn as <-. rewrite elem_of_union, elem_of_singleton, (IH s) by done.
      split; (intros [Hv|?]; [left | by right]).
      * by subst.
      * destruct Hv as [_ Hv]. congruence.
    + rewrite (IH bn Hbn). split; [by right | by intros [[? _]|?]].
Qed.

(** What a passed check tells: no active rule is identical to the
    candidate, and a replace or a swap touches no banned number. *)
Lemma check_pass_inv active proposed c :
  ConflictChecker.check active proposed = Return c →
  truthy c = false →
  List.find (ConflictChecker.identical proposed) active = None
  ∧ ∀ v, touches proposed v → ¬ ban_targets active v.
Proof.
  unfold ConflictChecker.check. intros Hc Ht.
  destruct (ConflictChecker.banned_numbers active) as [bn| |] eqn:Hbn;
    [|done..].
  pose proof (banned_numbers_targets _ _ Hbn) as Hspec. cbn in Hc.
  destruct (List.find _ active) as [existing|] eqn:Hfind.
  { injection Hc as <-. by rewrite duplicate_message_truthy in Ht. }
  split; [done|]. intros v Htouch Hban. apply Hspec in Hban.
  destruct (String.eqb_spec (kind proposed) "replace") as [Hk|Hk].
  - destruct Htouch as [[_ Hp]|[Hk' _]]; [|congruence].
    unfold get in Hc. rewrite Hp in Hc. cbn in Hc.
    rewrite bool_decide_eq_true_2 in Hc by done. cbn in Hc.
    injection Hc as <-. by rewrite replace_message_truthy in Ht.
  - cbn in Hc. destruct Htouch as [[Hk' _]|[Hk' Hp]]; [done|].
    rewrite Hk' in Hc. cbn in Hc. unfold get in Hc.
    destruct (params proposed !! "a") as [a|] eqn:Ha; [|done]. cbn in Hc.
    case_bool_decide as Hina.
    { injection Hc as <-. by rewrite swap_message_truthy in Ht. }
    destruct (params proposed !! "b") as [b|] eqn:Hb; [|done]. cbn in Hc.
    case_bool_decide as Hinb.
    { injection Hc as <-. by rewrite swap_message_truthy in Ht. }
    destruct Hp as [[= ->]|[= ->]]; done.
Qed.

(** The two outcomes of [try_add]. *)
Lemma try_add_inv g entry added g' :
  try_add g entry = Return (added, g') →
  (added = false ∧ g' = g)
  ∨ (added = true
     ∧ g' = with_rules g (active_rules g ++ [entry])
     ∧ List.find (ConflictChecker.identical entry) (active_rules g) = None
     ∧ ∀ v, touches entry v → ¬ ban_targets (active_rules g) v).
Proof.
  unfold try_add. intros Hadd.
  destruct (ConflictChecker.check (active_rules g) entry) as [c| |] eqn:Hc;
    [|done..].
  cbn -[truthy] in Hadd. destruct (truthy c) eqn:Ht.
  - left. by injection Hadd as <- <-.
  - right. injection Hadd as <- <-.
    destruct (check_pass_inv _ _ _ Hc Ht). done.
Qed.

Lemma check_other_fresh active proposed bn :
  ConflictChecker.banned_numbers active = Return bn →
  List.find (ConflictChecker.identical proposed) active = None →
  kind proposed ≠ "replace" → kind proposed ≠ "swap" →
  ConflictChecker.check active proposed = Return None.
Proof.
  intros Hbn Hfind Hr Hs. unfold ConflictChecker.check.
  rewrite Hbn. cbn -[List.find]. rewrite Hfind.
  apply String.eqb_neq in Hr, Hs. by rewrite Hr, Hs.
Qed.

Lemma identical_key proposed existing :
  ConflictChecker.identical proposed existing = true
  ↔ rule_key existing = rule_key proposed.
Proof.
  unfold ConflictChecker.identical, rule_key.
  rewrite andb_true_iff, String.eqb_eq, bool_decide_eq_true.
  split; [by intros [-> ->] | by intros [= -> ->]].
Qed.

Lemma find_identical_keys proposed active :
  List.find (ConflictChecker.identical proposed) active = None
  ↔ rule_key proposed ∉ rule_key <$> active.
Proof.
  rewrite find_identical_None, list_elem_of_fmap. split.
  - intros Hall (x & Hk & Hin). specialize (Hall x Hin).
    by rewrite (proj2 (identical_key proposed x)) in Hall.
  - intros Hnot x Hin.
    destruct (ConflictChecker.identical proposed x) eqn:Hid; [|done].
    exfalso. apply Hnot. exists x. split; [|done].
    symmetry. by apply identical_key.
Qed.

Lemma check_decides active proposed :
  Forall from_factory active → from_factory proposed →
  (clean active proposed
   ∧ ConflictChecker.check active proposed = Return None)
  ∨ (¬ clean active proposed
     ∧ ∃ msg, ConflictChecker.check active proposed = Return (Some msg)
              ∧ truthy (Some msg) = true).
Proof.
  intros Hf Hp.
  destruct (banned_numbers_factory active Hf) as (bn & Hbn & Hspec).
  destruct (List.find (ConflictChecker.identical proposed) active)
    as [existing|] eqn:Hfind.
  { right. destruct (find_identical_Some _ _ _ Hfind) as (Hin & Hk & Hpar).
    split.
    - intros [Hkey _]. apply Hkey, list_elem_of_fmap. exists existing.
      split; [|done]. unfold rule_key. by rewrite Hk, Hpar.
    - exists (ConflictChecker.duplicate_message existing).
      split; [|apply duplicate_message_truthy].
      unfold ConflictChecker.check. rewrite Hbn. cbn -[List.find].
      by rewrite Hfind. }
  pose proof (proj1 (find_identical_keys _ _) Hfind) as Hkey.
  assert (∀ c, ConflictChecker.check active proposed = Return c →
               truthy c = true ∨ c = None →
               (c = None → ∀ v, touches proposed v → ¬ ban_targets active v) →
               (∀ msg, c = Some msg →
                  ∃ v, touches proposed v ∧ ban_targets active v) →
    (clean active proposed
     ∧ ConflictChecker.check active proposed = Return None)
    ∨ (¬ clean active proposed
       ∧ ∃ msg, ConflictChecker.check active proposed = Return (Some msg)
                ∧ truthy (Some msg) = true)) as Hsplit.
  { intros [msg|] Hc Ht Hnone Hsome.
    - right. destruct (Hsome msg eq_refl) as (v & Htouch & Hban).
      split; [intros [_ Hfree]; by apply (Hfree v) |].
      exists msg. by destruct Ht.
    - left. split; [split; [done | by apply Hnone] | done]. }
  factory_cases Hp.
  - (* swap *)
    pose proof (check_swap_fresh _ a b _ Hbn Hfind) as Hc.
    eapply Hsplit; [exact Hc | | |].
    + repeat case_bool_decide; [left; apply swap_message_truthy..| by right].
    + repeat case_bool_decide; try done. intros _ v [[? _]|[_ Hv]]; [done|].
      rewrite <- Hspec. by destruct Hv as [[= <-]|[= <-]].
    + intros msg Hmsg. repeat case_bool_decide; [| |done].
      * exists (PInt a). split; [right; split; [done | by left] | by apply Hspec].
      * exists (PInt b). split; [right; split; [done | by right] | by apply Hspec].
  - (* replace *)
    pose proof (check_replace_fresh _ num text _ Hbn Hfind) as Hc.
    eapply Hsplit; [exact Hc | | |].
    + case_bool_decide; [left; apply replace_message_truthy | by right].
    + case_bool_decide; [done|]. intros _ v [[_ Hv]|[? _]]; [|done].
      rewrite <- Hspec. by injection Hv as <-.
    + intros msg Hmsg. case_bool_decide; [|done].
      exists (PInt num). split; [by left | by apply Hspec].
  - left. split; [split; [done|]; by intros v [[? _]|[? _]] |].
    by apply (check_other_fresh _ _ bn).
  - left. split; [split; [done|]; by intros v [[? _]|[? _]] |].
    by apply (check_other_fresh _ _ bn).
  - left. split; [split; [done|]; by intros v [[? _]|[? _]] |].
    by apply (check_other_fresh _ _ bn).
  - left. split; [split; [done|]; by intros v [[? _]|[? _]] |].
    by apply (check_other_fresh _ _ bn).
Qed.

(** X1: for factory rules the three listed cases are the only
    rejections.  The check never raises; a candidate is accepted, and
    appended last, exactly when no active rule has its kind and params
    and it is not a replace or a swap on a banned number; otherwise it
    is rejected with a message and the game is left as it was.  A ban, a
    divisible, an odd or an even rule is rejected only as a duplicate. *)
Theorem check_exact (g : RuleGame) (proposed : RuleEntry) :
  Forall from_factory (active_rules g) → from_factory proposed →
  (clean (active_rules g) proposed →
     ConflictChecker.check (active_rules g) proposed = Return None
     ∧ try_add g proposed
       = Return (true, with_rules g (active_rules g ++ [proposed])))
  ∧ (¬ clean (active_rules g) proposed →
       (∃ msg, ConflictChecker.check (active_rules g) proposed
               = Return (Some msg))
       ∧ try_add g proposed = Return (false, g))
  ∧ (kind proposed ≠ "replace" → kind proposed ≠ "swap" →
     rule_key proposed ∉ rule_key <$> active_rules g →
     try_add g proposed
     = Return (true, with_rules g (active_rules g ++ [proposed]))).
Proof.
  intros Hf Hp.
  destruct (check_decides _ _ Hf Hp) as [[Hclean Hc]|[Hdirty (msg & Hc & Ht)]].
  - split_and!.
    + intros _. split; [done | by apply try_add_accepts].
    + done.
    + intros _ _ _. by apply try_add_accepts.
  - split_and!.
    + done.
    + intros _. split; [by exists msg | by eapply try_add_rejects].
    + intros Hr Hs Hkey. exfalso. apply Hdirty. split; [done|].
      by intros v [[? _]|[? _]].
Qed.

Lemma check_exact_witness :
  try_add (game [Rules.replace 4 "four"; Rules.swap 6 9] 1 10) (Rules.ban 4)
  = Return (true,
            with_rules (game [Rules.replace 4 "four"; Rules.swap 6 9] 1 10)
              ([Rules.replace 4 "four"; Rules.swap 6 9] ++ [Rules.ban 4])).
Proof.
  apply (proj2 (proj2 (check_exact
           (game [Rules.replace 4 "four"; Rules.swap 6 9] 1 10) (Rules.ban 4)
           ltac:(repeat constructor) ltac:(constructor)))).
  - discriminate.
  - discriminate.
  - compute_done.
Defined.

(** ** What the menu operations do to the game *)

(** The retry loop adds at most one rule: the outcome of the first
    attempt that is built and accepted, every attempt before it having
    been built and rejected. *)
Lemma add_custom_loop_inv builder remaining attempt g g' :
  add_custom_loop remaining attempt g builder = Return g' →
  g' = g
  ∨ ∃ k r, (attempt ≤ k < attempt + remaining)%nat
           ∧ builder k = Return r
           ∧ try_add g r = Return (true, g')
           ∧ ∀ j, (attempt ≤ j < k)%nat →
                  ∃ r', builder j = Return r'
                        ∧ try_add g r' = Return (false, g).
Proof.
  revert attempt. induction remaining as [|remaining IH]; intros attempt Hrun.
  - left. by injection Hrun as <-.
  - cbn in Hrun. destruct (builder attempt) as [entry|e|] eqn:Hb; [| |done].
    + destruct (try_add g entry) as [[added g1]| |] eqn:Hadd; [|done..].
      cbn in Hrun. destruct added.
      * injection Hrun as <-. right. exists attempt, entry.
        split; [lia|]. split; [done|]. split; [done|]. intros j Hj; lia.
      * destruct (try_add_inv _ _ _ _ Hadd) as [[_ ->]|[? _]]; [|done].
        destruct (IH _ Hrun) as [->|(k & r & Hk & Hr & Hacc & Hbefore)];
          [by left|].
        right. exists k, r. split; [lia|]. split; [done|]. split; [done|].
        intros j Hj. destruct (decide (j = attempt)) as [->|Hne].
        -- by exists entry.
        -- apply Hbefore. lia.
    + destruct e; try done. left. by injection Hrun as <-.
Qed.

Lemma add_predefined_rule_inv g choice g' :
  add_predefined_rule g choice = Return g' →
  g' = g
  ∨ ∃ c desc r, choice = Some c
                ∧ PREDEFINED !! c = Some (desc, Return r)
                ∧ try_add g r = Return (true, g').
Proof.
  unfold add_predefined_rule. intros Hrun.
  destruct choice as [c|]; [|left; by injection Hrun as <-].
  destruct (PREDEFINED !! c) as [[desc builder]|] eqn:Hc;
    [|left; by injection Hrun as <-].
  destruct builder as [r| |]; [|done..]. cbn in Hrun.
  destruct (try_add g r) as [[added g1]| |] eqn:Hadd; [|done..].
  cbn in Hrun. injection Hrun as <-.
  destruct added.
  - right. by exists c, desc, r.
  - left. by destruct (try_add_inv _ _ _ _ Hadd) as [[_ ->]|[? _]].
Qed.

Lemma remove_rule_inv g choice out g' :
  remove_rule g choice = Return (out, g') →
  g' = g ∨ ∃ i, g' = with_rules g (delete i (active_rules g)).
Proof.
  unfold remove_rule. intros Hrun.
  destruct (active_rules g) as [|r0 rest] eqn:Hl;
    [left; by injection Hrun as _ <-|].
  destruct choice as [c|]; [|left; by injection Hrun as _ <-].
  destruct (negb _); [left; by injection Hrun as _ <-|].
  unfold pop in Hrun. destruct (_ || _); [done|].
  destruct (_ !! _) as [x|]; [|done]. cbn in Hrun.
  injection Hrun as _ <-. right. by eexists.
Qed.

Lemma predefined_from_factory c desc r :
  PREDEFINED !! c = Some (desc, Return r) → from_factory r.
Proof.
  intros Hc. apply elem_of_list_to_map_2 in Hc.
  repeat (apply elem_of_cons in Hc as [[= _ _ Hr]|Hc];
          [first [ subst r; by constructor
                 | subst r; by apply (ff_divisible 3 "Fizz") ] |]).
  by apply not_elem_of_nil in Hc.
Qed.

Section invariant.

(** A property [P] of collections that deleting a rule keeps, and that
    an accepted insertion of a rule with [Q] keeps. *)
Variable P : list RuleEntry → Prop.
Variable Q : RuleEntry → Prop.
Hypothesis P_delete : ∀ rules i, P rules → P (delete i rules).
Hypothesis P_accept : ∀ g entry g',
  P (active_rules g) → Q entry →
  try_add g entry = Return (true, g') → P (active_rules g').
Hypothesis Q_predefined : ∀ c desc r,
  PREDEFINED !! c = Some (desc, Return r) → Q r.

Lemma try_add_keeps g entry added g' :
  P (active_rules g) → Q entry →
  try_add g entry = Return (added, g') → P (active_rules g').
Proof using P_accept.
  intros HP HQ Hadd.
  destruct (try_add_inv _ _ _ _ Hadd) as [[_ ->]|[-> _]]; [done|].
  by eapply P_accept.
Qed.

Lemma remove_rule_keeps g choice out g' :
  P (active_rules g) →
  remove_rule g choice = Return (out, g') → P (active_rules g').
Proof using P_delete.
  intros HP Hrm.
  destruct (remove_rule_inv _ _ _ _ Hrm) as [->|[i ->]]; [done|].
  by apply P_delete.
Qed.

Lemma add_custom_rule_keeps g builder g' :
  P (active_rules g) → (∀ k r, builder k = Return r → Q r) →
  add_custom_rule g builder = Return g' → P (active_rules g').
Proof using P_accept.
  intros HP HQ Hrun.
  destruct (add_custom_loop_inv _ _ _ _ _ Hrun)
    as [->|(k & r & _ & Hr & Hacc & _)]; [done|].
  eapply P_accept; [done | by eapply HQ | done].
Qed.

Lemma add_predefined_rule_keeps g choice g' :
  P (active_rules g) →
  add_predefined_rule g choice = Return g' → P (active_rules g').
Proof using P_accept Q_predefined.
  intros HP Hrun.
  destruct (add_predefined_rule_inv _ _ _ Hrun)
    as [->|(c & desc & r & _ & Hc & Hacc)]; [done|].
  eapply P_accept; [done | by eapply Q_predefined | done].
Qed.

Lemma change_range_keeps g answers g' rest :
  P (active_rules g) →
  change_range g answers = Some (g', rest) → P (active_rules g').
Proof using Type.
  unfold change_range. intros HP Hrun.
  destruct (prompt_range answers) as [[[s e] rest']|]; [|done].
  by injection Hrun as <- _.
Qed.

End invariant.

(** ** Invariants of the collection *)

Lemma distinct_rules_delete rules i :
  distinct_rules rules → distinct_rules (delete i rules).
Proof.
  unfold distinct_rules. rewrite list_fmap_delete.
  intros Hnd. eapply sublist_NoDup; [done | apply sublist_delete].
Qed.

Lemma distinct_rules_accept g entry g' :
  distinct_rules (active_rules g) → True →
  try_add g entry = Return (true, g') → distinct_rules (active_rules g').
Proof.
  unfold distinct_rules. intros Hnd _ Hadd.
  destruct (try_add_inv _ _ _ _ Hadd) as [[? _]|(_ & -> & Hfind & _)]; [done|].
  cbn. rewrite fmap_app. apply NoDup_app. split_and!; [done | | apply NoDup_singleton].
  intros k Hk Hin. apply list_elem_of_singleton in Hin as ->.
  by apply find_identical_keys in Hfind.
Qed.

(** X2: the collection never holds two rules with the same kind and
    params.  The collection of a new game has none, and whatever
    [try_add], [remove_rule], [add_custom_rule], [add_predefined_rule]
    and [change_range] return keeps it so. *)
Theorem distinct_rules_kept :
  distinct_rules (active_rules new_game)
  ∧ ∀ g, distinct_rules (active_rules g) →
      (∀ entry added g',
         try_add g entry = Return (added, g') →
         distinct_rules (active_rules g'))
      ∧ (∀ choice out g',
           remove_rule g choice = Return (out, g') →
           distinct_rules (active_rules g'))
      ∧ (∀ builder g',
           add_custom_rule g builder = Return g' →
           distinct_rules (active_rules g'))
      ∧ (∀ choice g',
           add_predefined_rule g choice = Return g' →
           distinct_rules (active_rules g'))
      ∧ (∀ answers g' rest,
           change_range g answers = Some (g', rest) →
           distinct_rules (active_rules g')).
Proof.
  split; [apply NoDup_nil_2|]. intros g Hg. split_and!.
  - intros entry added g'.
    by apply (try_add_keeps distinct_rules (λ _, True) distinct_rules_accept).
  - intros choice out g'.
    by apply (remove_rule_keeps distinct_rules distinct_rules_delete).
  - intros builder g'.
    by apply (add_custom_rule_keeps distinct_rules (λ _, True)
                distinct_rules_accept).
  - intros choice g'.
    by apply (add_predefined_rule_keeps distinct_rules (λ _, True)
                distinct_rules_accept).
  - intros answers g' rest. by apply (change_range_keeps distinct_rules).
Qed.

Lemma distinct_rules_kept_witness :
  distinct_rules
    (active_rules (with_rules (game [Rules.swap 6 9] 1 10)
                     ([Rules.swap 6 9] ++ [Rules.ban 4])))
  ∧ distinct_rules (active_rules (game [Rules.swap 6 9] 1 10)).
Proof.
  split.
  - apply (proj1 (proj2 distinct_rules_kept (game [Rules.swap 6 9] 1 10)
                    ltac:(unfold distinct_rules; compute_done))
             (Rules.ban 4) true).
    reflexivity.
  - apply (proj1 (proj2 distinct_rules_kept (game [Rules.swap 6 9] 1 10)
                    ltac:(unfold distinct_rules; compute_done))
             (Rules.swap 6 9) false).
    reflexivity.
Defined.

Lemma bans_last_sublist rules1 rules2 :
  rules1 `sublist_of` rules2 → bans_last rules2 → bans_last rules1.
Proof.
  induction 1 as [|r l1 l2 Hsub IH|r l1 l2 Hsub IH]; [done | |].
  - intros [Hr Hrest]. split; [|by apply IH].
    intros v Hv. specialize (Hr v Hv). rewrite Forall_forall in Hr |- *.
    intros x Hin. apply Hr. by eapply elem_of_sublist.
  - intros [_ Hrest]. by apply IH.
Qed.

Lemma bans_last_snoc rules entry :
  bans_last rules →
  (∀ v, touches entry v → ¬ ban_targets rules v) →
  bans_last (rules ++ [entry]).
Proof.
  induction rules as [|r rules IH]; intros Hbl Hfree.
  - split; [|done]. intros v _. constructor.
  - destruct Hbl as [Hr Hrest]. split.
    + intros v Hv. apply Forall_app. split; [by apply Hr|].
      constructor; [|constructor]. intros Htouch.
      apply (Hfree v Htouch). apply ban_targets_cons. by left.
    + apply IH; [done|]. intros v Htouch Hban.
      apply (Hfree v Htouch). apply ban_targets_cons. by right.
Qed.

Lemma bans_last_delete rules i :
  bans_last rules → bans_last (delete i rules).
Proof. apply bans_last_sublist, sublist_delete. Qed.

Lemma bans_last_accept g entry g' :
  bans_last (active_rules g) → True →
  try_add g entry = Return (true, g') → bans_last (active_rules g').
Proof.
  intros Hbl _ Hadd.
  destruct (try_add_inv _ _ _ _ Hadd) as [[? _]|(_ & -> & _ & Hfree)]; [done|].
  by apply bans_last_snoc.
Qed.

(** What [bans_last] says, by positions. *)
Lemma bans_last_lookup rules i j b r v :
  bans_last rules →
  rules !! i = Some b → bans b v →
  rules !! j = Some r → touches r v →
  (j < i)%nat.
Proof.
  revert i j. induction rules as [|x rules IH]; intros i j Hbl Hi Hb Hj Hr;
    [done|].
  destruct Hbl as [Hx Hrest].
  destruct i as [|i], j as [|j]; cbn in *.
  - injection Hi as ->. injection Hj as ->.
    destruct Hb as [Hk _], Hr as [[Hk' _]|[Hk' _]]; congruence.
  - injection Hi as ->. exfalso.
    specialize (Hx v Hb). rewrite Forall_lookup in Hx. by apply (Hx j r).
  - lia.
  - apply ->Nat.succ_lt_mono. by apply IH.
Qed.

(** X3: in the collection, a replace or a swap on a number never comes
    after a ban of that number: the checker rejects it once the ban is
    active, and only the ban can be added later.  The collection of a
    new game is so, and whatever [try_add], [remove_rule],
    [add_custom_rule], [add_predefined_rule] and [change_range] return
    keeps it so; in such a collection the position of a rule that
    touches a banned number is smaller than that of the ban. *)
Theorem bans_last_kept :
  bans_last (active_rules new_game)
  ∧ (∀ g, bans_last (active_rules g) →
      (∀ entry added g',
         try_add g entry = Return (added, g') →
         bans_last (active_rules g'))
      ∧ (∀ choice out g',
           remove_rule g choice = Return (out, g') →
           bans_last (active_rules g'))
      ∧ (∀ builder g',
           add_custom_rule g builder = Return g' →
           bans_last (active_rules g'))
      ∧ (∀ choice g',
           add_predefined_rule g choice = Return g' →
           bans_last (active_rules g'))
      ∧ (∀ answers g' rest,
           change_range g answers = Some (g', rest) →
           bans_last (active_rules g'))
      ∧ (∀ i j b r v,
           active_rules g !! i = Some b → bans b v →
           active_rules g !! j = Some r → touches r v →
           (j < i)%nat)).
Proof.
  split; [done|]. intros g Hg. split_and!.
  - intros entry added g'.
    by apply (try_add_keeps bans_last (λ _, True) bans_last_accept).
  - intros choice out g'.
    by apply (remove_rule_keeps bans_last bans_last_delete).
  - intros builder g'.
    by apply (add_custom_rule_keeps bans_last (λ _, True) bans_last_accept).
  - intros choice g'.
    by apply (add_predefined_rule_keeps bans_last (λ _, True)
                bans_last_accept).
  - intros answers g' rest. by apply (change_range_keeps bans_last).
  - intros i j b r v. by apply bans_last_lookup.
Qed.

Lemma bans_last_swap_ban : bans_last [Rules.swap 6 9; Rules.ban 6].
Proof.
  split; [intros v [Hk _]; discriminate Hk|].
  split; [intros v _; constructor | done].
Defined.

Lemma bans_last_kept_witness :
  bans_last
    (active_rules (with_rules (game [Rules.swap 6 9; Rules.ban 6] 1 10)
                     ([Rules.swap 6 9; Rules.ban 6] ++ [Rules.odd "Odd"])))
  ∧ (0 < 1)%nat.
Proof.
  split.
  - apply (proj1 (proj2 bans_last_kept
                    (game [Rules.swap 6 9; Rules.ban 6] 1 10)
                    bans_last_swap_ban)
             (Rules.odd "Odd") true).
    reflexivity.
  - apply (proj2 (proj2 (proj2 (proj2 (proj2 (proj2 bans_last_kept
                    (game [Rules.swap 6 9; Rules.ban 6] 1 10)
                    bans_last_swap_ban)))))
             1%nat 0%nat (Rules.ban 6) (Rules.swap 6 9) (PInt 6)).
    + reflexivity.
    + split; reflexivity.
    + reflexivity.
    + right. split; [reflexivity | left; reflexivity].
Defined.

(** ** The operations never raise *)

Lemma factory_delete rules i :
  Forall from_factory rules → Forall from_factory (delete i rules).
Proof. apply Forall_delete. Qed.

Lemma factory_accept g entry g' :
  Forall from_factory (active_rules g) → from_factory entry →
  try_add g entry = Return (true, g') → Forall from_factory (active_rules g').
Proof.
  intros Hf He Hadd.
  destruct (try_add_inv _ _ _ _ Hadd) as [[? _]|(_ & -> & _)]; [done|].
  cbn. apply Forall_app. split; [done | by constructor].
Qed.

Lemma try_add_total g entry :
  Forall from_factory (active_rules g) → from_factory entry →
  ∃ added g', try_add g entry = Return (added, g').
Proof.
  intros Hf He.
  destruct (check_decides _ _ Hf He) as [[_ Hc]|[_ (msg & Hc & Ht)]].
  - eexists _, _. by apply try_add_accepts.
  - eexists _, _. by eapply try_add_rejects.
Qed.

Lemma remove_rule_total g choice :
  ∃ out g', remove_rule g choice = Return (out, g').
Proof.
  unfold remove_rule. destruct (active_rules g) as [|r0 rest] eqn:Hl; [by eexists _, _|].
  destruct choice as [c|]; [|by eexists _, _].
  destruct (1 <=? c) eqn:H1, (c <=? Z.of_nat (length (r0 :: rest))) eqn:H2;
    cbn [negb andb]; try by eexists _, _.
  apply Z.leb_le in H1, H2.
  destruct (pop_in_range (r0 :: rest) (c - 1)) as (r & _ & ->); [lia|].
  by eexists _, _.
Qed.

Lemma add_custom_loop_total builder remaining attempt g :
  Forall from_factory (active_rules g) → factory_builder builder →
  ∃ g', add_custom_loop remaining attempt g builder = Return g'.
Proof.
  intros Hf Hb. revert attempt.
  induction remaining as [|remaining IH]; intros attempt; [by eexists|].
  cbn. destruct (Hb attempt) as [(r & -> & Hr)|(msg & ->)]; [|by eexists].
  destruct (try_add_total g r Hf Hr) as (added & g1 & Hadd).
  rewrite Hadd. cbn. destruct added; [by eexists|].
  destruct (try_add_inv _ _ _ _ Hadd) as [[_ ->]|[? _]]; [|done].
  apply IH.
Qed.

Lemma add_predefined_rule_total g choice :
  Forall from_factory (active_rules g) →
  ∃ g', add_predefined_rule g choice = Return g'.
Proof.
  intros Hf. unfold add_predefined_rule.
  destruct choice as [c|]; [|by eexists].
  destruct (PREDEFINED !! c) as [[desc builder]|] eqn:Hc; [|by eexists].
  destruct builder as [r| |] eqn:Hb.
  - destruct (try_add_total g r Hf (predefined_from_factory _ _ _ Hc))
      as (added & g1 & Hadd). cbn. rewrite Hadd. by eexists.
  - exfalso. apply elem_of_list_to_map_2 in Hc.
    repeat (apply elem_of_cons in Hc as [Heq|Hc];
            [vm_compute in Heq; discriminate Heq|]).
    by apply not_elem_of_nil in Hc.
  - exfalso. apply elem_of_list_to_map_2 in Hc.
    repeat (apply elem_of_cons in Hc as [Heq|Hc];
            [vm_compute in Heq; discriminate Heq|]).
    by apply not_elem_of_nil in Hc.
Qed.

(** X4: on a game whose rules all come from the factory no menu
    operation raises, and each leaves such a game: [try_add] of a
    factory rule, [remove_rule] and [add_predefined_rule] for any
    answer, and [add_custom_rule] when each attempt builds a factory
    rule or raises the [ValueError] that the dialogue catches. *)
Theorem operations_total (g : RuleGame) :
  Forall from_factory (active_rules g) →
  (∀ entry, from_factory entry →
     ∃ added g', try_add g entry = Return (added, g')
                 ∧ Forall from_factory (active_rules g'))
  ∧ (∀ choice,
       ∃ out g', remove_rule g choice = Return (out, g')
                 ∧ Forall from_factory (active_rules g'))
  ∧ (∀ builder, factory_builder builder →
       ∃ g', add_custom_rule g builder = Return g'
             ∧ Forall from_factory (active_rules g'))
  ∧ (∀ choice,
       ∃ g', add_predefined_rule g choice = Return g'
             ∧ Forall from_factory (active_rules g')).
Proof.
  intros Hf. split_and!.
  - intros entry He. destruct (try_add_total g entry Hf He) as (added & g' & Hadd).
    exists added, g'. split; [done|].
    by apply (try_add_keeps _ from_factory factory_accept _ _ _ _ Hf He Hadd).
  - intros choice. destruct (remove_rule_total g choice) as (out & g' & Hrm).
    exists out, g'. split; [done|].
    by apply (remove_rule_keeps _ factory_delete _ _ _ _ Hf Hrm).
  - intros builder Hb.
    destruct (add_custom_loop_total builder MAX_RETRIES 0 g Hf Hb) as (g' & Hrun).
    exists g'. split; [done|].
    apply (add_custom_rule_keeps _ from_factory factory_accept g builder g' Hf);
      [|done].
    intros k r Hr. destruct (Hb k) as [(r' & Hr' & Hfr)|(msg & Hmsg)]; congruence.
  - intros choice.
    destruct (add_predefined_rule_total g choice Hf) as (g' & Hrun).
    exists g'. split; [done|].
    by apply (add_predefined_rule_keeps _ from_factory factory_accept
                predefined_from_factory _ _ _ Hf Hrun).
Qed.

Lemma operations_total_witness :
  ∃ g', add_predefined_rule (game [Rules.ban 4] 1 10) (Some 1) = Return g'
        ∧ Forall from_factory (active_rules g').
Proof.
  apply (proj2 (proj2 (proj2 (operations_total (game [Rules.ban 4] 1 10)
                                ltac:(repeat constructor))))).
Defined.

(** ** The evaluation pass *)

(** X5: the checker and the evaluation pass agree on the banned
    numbers: for a collection of factory rules, the set that
    [ConflictChecker.banned_numbers] builds and the set that the loop of
    [run_iteration] builds are the same set, whatever the range. *)
Theorem banned_sets_agree (s e : Z) (rules : list RuleEntry) :
  Forall from_factory rules →
  ∃ rm bn,
    build_maps s e rules (∅, ∅) = Return (rm, bn)
    ∧ ConflictChecker.banned_numbers rules = Return bn.
Proof.
  intros Hf.
  destruct (build_maps_factory s e rules Hf ∅ ∅)
    as (rm & bn & Hbuild & _ & Hbn & _).
  destruct (banned_numbers_factory rules Hf) as (bn' & Hbn' & Hspec).
  exists rm, bn. split; [done|]. rewrite Hbn'. f_equal.
  apply set_eq. intros v. rewrite Hbn, Hspec.
  split; [by right | by intros [?|?]].
Qed.

Lemma banned_sets_agree_witness :
  ∃ rm bn,
    build_maps 1 10 [Rules.ban 4; Rules.odd "Odd"; Rules.ban 7] (∅, ∅)
    = Return (rm, bn)
    ∧ ConflictChecker.banned_numbers [Rules.ban 4; Rules.odd "Odd"; Rules.ban 7]
      = Return bn.
Proof.
  apply (banned_sets_agree 1 10 [Rules.ban 4; Rules.odd "Odd"; Rules.ban 7]).
  repeat constructor.
Defined.

Lemma labels_expected rm bn (m : gmap Z string) nums :
  (∀ n, n ∈ nums → ∃ text, expected rm bn n = Return text ∧ m !! n = Some text) →
  Forall2 (λ n label, expected rm bn n = Return label) nums (labels m nums).
Proof.
  induction nums as [|n nums IH]; intros Hall; [constructor|].
  destruct (Hall n) as (text & He & Hm); [left|].
  unfold labels. cbn. rewrite Hm. cbn. constructor; [done|].
  apply IH. intros k Hk. apply Hall. by right.
Qed.

(** X6: the round and the mapping.  For a game of factory rules the
    evaluation returns a mapping that has a label for exactly the
    numbers of the range, and [run_iteration] is won exactly when the
    lines of the player, once stripped, begin with these labels, in the
    order of the numbers: a wrong line or a missing line loses the
    round, lines beyond the range are not read.  So the round can be
    won exactly when no label has whitespace at its ends. *)
Theorem round_follows_labels (g : RuleGame) :
  Forall from_factory (active_rules g) →
  ∃ m,
    evaluate g = Return m
    ∧ (∀ n, is_Some (m !! n) ↔ range_start g ≤ n ≤ range_end g)
    ∧ length (labels m (py_range (range_start g) (range_end g + 1)))
      = Z.to_nat (range_end g + 1 - range_start g)
    ∧ (∀ moves,
        run_iteration g moves
        = bool_decide
            (labels m (py_range (range_start g) (range_end g + 1))
               `prefix_of` strip <$> moves))
    ∧ ((∃ moves, run_iteration g moves = true)
       ↔ Forall (λ label, strip label = label)
           (labels m (py_range (range_start g) (range_end g + 1)))).
Proof.
  intros Hf.
  destruct (evaluate_factory g Hf)
    as (rm & bn & m & Hbuild & Hev & _ & _ & _ & Hin & Hout).
  exists m. split; [done|].
  assert (Forall2 (λ n label, expected rm bn n = Return label)
            (py_range (range_start g) (range_end g + 1))
            (labels m (py_range (range_start g) (range_end g + 1)))) as Hlab.
  { apply labels_expected. intros n Hn. apply Hin.
    apply elem_of_py_range in Hn. lia. }
  split_and!.
  - intros n. split.
    + intros Hsome.
      destruct (decide (range_start g ≤ n ≤ range_end g)) as [?|Hn]; [done|].
      rewrite (Hout n Hn) in Hsome. by destruct Hsome.
    + intros Hn. destruct (Hin n Hn) as (text & _ & ->). by eexists.
  - rewrite <- (Forall2_length _ _ _ Hlab). unfold py_range.
    by rewrite length_seqZ.
  - intros moves. unfold run_iteration. rewrite Hbuild. cbn.
    by rewrite (play_labels _ _ _ _ Hlab).
  - assert (∀ moves,
        run_iteration g moves
        = bool_decide
            (labels m (py_range (range_start g) (range_end g + 1))
               `prefix_of` strip <$> moves)) as Hrun.
    { intros moves. unfold run_iteration. rewrite Hbuild. cbn.
      by rewrite (play_labels _ _ _ _ Hlab). }
    split.
    + intros [moves Hwon]. rewrite Hrun in Hwon.
      apply bool_decide_eq_true in Hwon. apply Forall_forall.
      intros label Hin'. eapply elem_of_prefix in Hin'; [|exact Hwon].
      apply list_elem_of_fmap in Hin' as (move & -> & _). apply strip_idemp.
    + intros Hfix.
      exists (labels m (py_range (range_start g) (range_end g + 1))).
      rewrite Hrun. apply bool_decide_eq_true.
      rewrite (proj1 (Forall_fmap_ext strip id _)), list_fmap_id; done.
Qed.

Lemma round_follows_labels_witness :
  ∃ m,
    evaluate (game [Rules.ban 2; Rules.odd "Odd"] 1 3) = Return m
    ∧ (∀ n, is_Some (m !! n) ↔ 1 ≤ n ≤ 3)
    ∧ length (labels m (py_range 1 (3 + 1))) = Z.to_nat (3 + 1 - 1)
    ∧ (∀ moves,
        run_iteration (game [Rules.ban 2; Rules.odd "Odd"] 1 3) moves
        = bool_decide
            (labels m (py_range 1 (3 + 1)) `prefix_of` strip <$> moves))
    ∧ ((∃ moves,
          run_iteration (game [Rules.ban 2; Rules.odd "Odd"] 1 3) moves = true)
       ↔ Forall (λ label, strip label = label)
           (labels m (py_range 1 (3 + 1)))).
Proof.
  apply (round_follows_labels (game [Rules.ban 2; Rules.odd "Odd"] 1 3)).
  repeat constructor.
Defined.

Lemma governing_Some rules n r :
  governing rules n = Some r → r ∈ rules ∧ governs r n = true.
Proof.
  induction rules as [|x rules IH]; [done|]. cbn.
  destruct (governing rules n) as [later|].
  - intros [= ->]. destruct IH as [Hin Hg]; [done|]. split; [by right | done].
  - destruct (governs x n) eqn:Hg; [|done].
    intros [= ->]. split; [left | done].
Qed.

(** The label of a number that is not banned. *)
Lemma unbanned_label g n :
  Forall from_factory (active_rules g) →
  range_start g ≤ n ≤ range_end g →
  banned_by (active_rules g) n = false →
  ∃ m text,
    evaluate g = Return m
    ∧ m !! n = Some text
    ∧ render (governed_value (active_rules g) n) = Return text.
Proof.
  intros Hf Hn Hfree.
  destruct (evaluate_factory g Hf)
    as (rm & bn & m & _ & Hev & Hrm & Hgov & Hbn & Hin & _).
  destruct (Hin n Hn) as (text & Hexp & Hm).
  exists m, text. split_and!; [done | done |].
  destruct (expected_ban_free rm bn n Hrm)
    as (rendered & Hr & [[_ He]|[Hb _]]).
  - unfold governed_value. rewrite <- (Hgov n Hn).
    unfold transformed in Hr. congruence.
  - apply Hbn in Hb. by apply not_banned_by_spec in Hfree.
Qed.

(** X7: one rule, one label.  For a game of factory rules and a number
    of the range that is not banned, the label is the number itself
    when no rule governs it; the other endpoint when a swap governs it;
    and the text of the governing rule, alone, when a replace, a
    divisible, an odd or an even rule governs it: the texts of the
    earlier rules that match the number are not joined to it. *)
Theorem label_of_governing (g : RuleGame) (n : Z) :
  Forall from_factory (active_rules g) →
  range_start g ≤ n ≤ range_end g →
  banned_by (active_rules g) n = false →
  ∃ m,
    evaluate g = Return m
    ∧ match governing (active_rules g) n with
      | None => m !! n = Some (str n)
      | Some r =>
          r ∈ active_rules g
          ∧ ((∃ a b, r = Rules.swap a b
                     ∧ m !! n = Some (str (if bool_decide (n = a) then b else a)))
             ∨ (∃ text, (kind r ≠ "swap")
                        ∧ params r !! "text" = Some (PStr text)
                        ∧ m !! n = Some text))
      end.
Proof.
  intros Hf Hn Hfree.
  destruct (unbanned_label g n Hf Hn Hfree) as (m & label & Hev & Hm & Hr).
  exists m. split; [done|]. unfold governed_value in Hr.
  destruct (governing (active_rules g) n) as [r|] eqn:Hgov.
  - destruct (governing_Some _ _ _ Hgov) as [Hin Hg].
    split; [done|].
    assert (from_factory r) as Hfr by (by eapply Forall_forall in Hf).
    factory_cases Hfr.
    + left. exists a, b. split; [done|]. rewrite Hm. f_equal.
      rewrite governs_swap in Hg. cbn in Hr.
      destruct (Z.eqb_spec n a) as [->|Hna].
      * rewrite bool_decide_eq_true_2 by done. cbn in Hr. congruence.
      * rewrite (bool_decide_eq_false_2 (n = a)) by done.
        rewrite (bool_decide_eq_false_2 (a = n)) in Hg by done.
        apply bool_decide_eq_true in Hg. subst b.
        rewrite Z.eqb_refl in Hr. cbn in Hr. congruence.
    + right. exists text. split_and!; [done | done |].
      rewrite governs_replace in Hg. apply bool_decide_eq_true in Hg. subst.
      cbn in Hr. rewrite Z.eqb_refl in Hr. cbn in Hr. congruence.
    + by rewrite governs_ban in Hg.
    + right. exists text. split_and!; [done | done |].
      change ((n mod d =? 0) = true) in Hg. cbn in Hr. rewrite Hg in Hr.
      cbn in Hr. congruence.
    + right. exists text. split_and!; [done | done |].
      change (negb (n mod 2 =? 0) = true) in Hg. cbn in Hr. rewrite Hg in Hr.
      cbn in Hr. congruence.
    + right. exists text. split_and!; [done | done |].
      change ((n mod 2 =? 0) = true) in Hg. cbn in Hr. rewrite Hg in Hr.
      cbn in Hr. congruence.
  - cbn in Hr. congruence.
Qed.

Lemma label_of_governing_witness :
  ∃ m,
    evaluate (game [Rules.odd "Odd"; Rules.replace 3 "three"] 1 5) = Return m
    ∧ match governing [Rules.odd "Odd"; Rules.replace 3 "three"] 3 with
      | None => m !! 3 = Some (str 3)
      | Some r =>
          r ∈ [Rules.odd "Odd"; Rules.replace 3 "three"]
          ∧ ((∃ a b, r = Rules.swap a b
                     ∧ m !! 3 = Some (str (if bool_decide (3 = a) then b else a)))
             ∨ (∃ text, (kind r ≠ "swap")
                        ∧ params r !! "text" = Some (PStr text)
                        ∧ m !! 3 = Some text))
      end.
Proof.
  apply (label_of_governing
           (game [Rules.odd "Odd"; Rules.replace 3 "three"] 1 5) 3).
  - repeat constructor.
  - cbn. lia.
  - reflexivity.
Defined.

(** X8: a banned number followed by a banned number gets the label of
    that follower, so the numbers of a run of consecutive banned
    numbers all carry one label. *)
Theorem banned_run_shares_label (g : RuleGame) (n : Z) :
  Forall from_factory (active_rules g) →
  range_start g ≤ n → n + 1 ≤ range_end g →
  banned_by (active_rules g) n = true →
  banned_by (active_rules g) (n + 1) = true →
  ∃ m label,
    evaluate g = Return m
    ∧ m !! n = Some label
    ∧ m !! (n + 1) = Some label.
Proof.
  intros Hf Hlo Hhi Hb0 Hb1.
  destruct (evaluate_factory g Hf)
    as (rm & bn & m & _ & Hev & Hrm & _ & Hbn & Hin & _).
  apply banned_by_spec, Hbn in Hb0, Hb1.
  destruct (Hin n) as (text0 & He0 & Hm0); [lia|].
  destruct (Hin (n + 1)) as (text1 & He1 & Hm1); [lia|].
  destruct (expected_ban_free rm bn n Hrm)
    as (_ & _ & [[Hout _]|[_ (next0 & Hs0 & Hx0)]]); [done|].
  destruct (expected_ban_free rm bn (n + 1) Hrm)
    as (_ & _ & [[Hout _]|[_ (next1 & Hs1 & Hx1)]]); [done|].
  exists m, text0. split_and!; [done | done |].
  rewrite Hm1. f_equal.
  assert (scan (size bn) bn (n + 1 + 1) = Return next0) as Hs.
  { cbn in Hs0. by rewrite bool_decide_eq_true_2 in Hs0. }
  apply (scan_more_fuel _ (S (size bn))) in Hs; [|lia].
  congruence.
Qed.

Lemma banned_run_shares_label_witness :
  ∃ m label,
    evaluate (game [Rules.ban 4; Rules.even "Even"; Rules.ban 5] 1 10) = Return m
    ∧ m !! 4 = Some label
    ∧ m !! (4 + 1) = Some label.
Proof.
  apply (banned_run_shares_label
           (game [Rules.ban 4; Rules.even "Even"; Rules.ban 5] 1 10) 4).
  - repeat constructor.
  - cbn. lia.
  - cbn. lia.
  - reflexivity.
  - reflexivity.
Defined.

(** ** Adding and removing *)

Lemma with_rules_back g rules :
  with_rules (with_rules g rules) (active_rules g) = g.
Proof. by destruct g. Qed.

(** X9: removing undoes adding.  After [try_add] has accepted a rule, it
    stands at the last position, and [remove_rule] at that position
    reports this very rule and gives back the game as it was before. *)
Theorem remove_undoes_add (g g' : RuleGame) (entry : RuleEntry) :
  try_add g entry = Return (true, g') →
  active_rules g' !! length (active_rules g) = Some entry
  ∧ remove_rule g' (Some (Z.of_nat (length (active_rules g'))))
    = Return (Removed entry, g).
Proof.
  intros Hadd.
  destruct (try_add_inv _ _ _ _ Hadd) as [[? _]|(_ & -> & _)]; [done|].
  cbn. split; [by apply list_lookup_middle|].
  unfold remove_rule. cbn [active_rules with_rules].
  destruct (active_rules g ++ [entry])%list as [|r0 rest] eqn:Hl.
  { by destruct (active_rules g). }
  rewrite <- Hl.
  rewrite (proj2 (Z.leb_le 1 _)) by (rewrite length_app; cbn; lia).
  rewrite Z.leb_refl. cbn [negb andb].
  destruct (pop_in_range (active_rules g ++ [entry])%list
              (Z.of_nat (length (active_rules g ++ [entry])%list) - 1))
    as (r & Hr & ->); [rewrite length_app; cbn; lia|].
  replace (Z.to_nat (Z.of_nat (length (active_rules g ++ [entry])%list) - 1))
    with (length (active_rules g)) in * by (rewrite length_app; cbn; lia).
  rewrite list_lookup_middle in Hr by done. injection Hr as <-.
  cbn. rewrite delete_middle, app_nil_r. by rewrite with_rules_back.
Qed.

Lemma remove_undoes_add_witness :
  active_rules (game [Rules.swap 6 9; Rules.ban 4] 1 10)
    !! length (active_rules (game [Rules.swap 6 9] 1 10))
  = Some (Rules.ban 4)
  ∧ remove_rule (game [Rules.swap 6 9; Rules.ban 4] 1 10)
      (Some (Z.of_nat (length (active_rules
                                 (game [Rules.swap 6 9; Rules.ban 4] 1 10)))))
    = Return (Removed (Rules.ban 4), game [Rules.swap 6 9] 1 10).
Proof.
  apply (remove_undoes_add (game [Rules.swap 6 9] 1 10)
           (game [Rules.swap 6 9; Rules.ban 4] 1 10) (Rules.ban 4)).
  reflexivity.
Defined.

Lemma add_custom_loop_skip builder g n remaining attempt :
  (∀ j, (attempt ≤ j < attempt + n)%nat → rejected_attempt g builder j) →
  add_custom_loop (n + remaining) attempt g builder
  = add_custom_loop remaining (attempt + n) g builder.
Proof.
  revert attempt. induction n as [|n IH]; intros attempt Hrej.
  - by rewrite Nat.add_0_r.
  - destruct (Hrej attempt) as (r & Hr & Hadd); [lia|].
    cbn. rewrite Hr, Hadd. cbn. rewrite IH; [f_equal; lia|].
    intros j Hj. apply Hrej. lia.
Qed.

Lemma add_custom_loop_ext builder builder' g remaining attempt :
  (∀ k, (attempt ≤ k < attempt + remaining)%nat → builder' k = builder k) →
  add_custom_loop remaining attempt g builder'
  = add_custom_loop remaining attempt g builder.
Proof.
  revert attempt g. induction remaining as [|remaining IH]; intros attempt g Hext;
    [done|].
  cbn. rewrite Hext by lia. destruct (builder attempt) as [entry|e|]; [|done..].
  destruct (try_add g entry) as [[added g1]| |]; [|done..]. cbn.
  destruct added; [done|]. apply IH. intros k Hk. apply Hext. lia.
Qed.

(** X10: the dialogue of [add_custom_rule] makes at most three attempts
    and adds at most one rule.  Its result depends on the first three
    attempts only; the first attempt that is built and accepted, after
    rejected ones, gives the result; an attempt that raises a
    [ValueError] after rejected ones, or three rejected attempts, leave
    the game as it was; and whenever the dialogue returns, the game is
    unchanged or is the outcome of an accepted attempt among the first
    three. *)
Theorem add_custom_rule_attempts (g : RuleGame) (builder : nat → result RuleEntry) :
  (∀ builder', (∀ k, (k < 3)%nat → builder' k = builder k) →
     add_custom_rule g builder' = add_custom_rule g builder)
  ∧ (∀ k r g', (k < 3)%nat →
       (∀ j, (j < k)%nat → rejected_attempt g builder j) →
       builder k = Return r → try_add g r = Return (true, g') →
       add_custom_rule g builder = Return g')
  ∧ (∀ k msg, (k < 3)%nat →
       (∀ j, (j < k)%nat → rejected_attempt g builder j) →
       builder k = Raise (ValueError msg) →
       add_custom_rule g builder = Return g)
  ∧ ((∀ j, (j < 3)%nat → rejected_attempt g builder j) →
     add_custom_rule g builder = Return g)
  ∧ (∀ g', add_custom_rule g builder = Return g' →
       g' = g
       ∨ ∃ k r, (k < 3)%nat ∧ builder k = Return r
                ∧ try_add g r = Return (true, g')).
Proof.
  unfold add_custom_rule, MAX_RETRIES. split_and!.
  - intros builder' Hext. apply add_custom_loop_ext. intros k Hk.
    apply Hext. lia.
  - intros k r g' Hk Hrej Hr Hadd.
    replace 3%nat with (k + S (2 - k))%nat by lia.
    rewrite add_custom_loop_skip by (intros j Hj; apply Hrej; lia).
    cbn. by rewrite Hr, Hadd.
  - intros k msg Hk Hrej Hr.
    replace 3%nat with (k + S (2 - k))%nat by lia.
    rewrite add_custom_loop_skip by (intros j Hj; apply Hrej; lia).
    cbn. by rewrite Hr.
  - intros Hrej.
    change 3%nat with (3 + 0)%nat.
    by rewrite add_custom_loop_skip by (intros j Hj; apply Hrej; lia).
  - intros g' Hrun.
    destruct (add_custom_loop_inv _ _ _ _ _ Hrun)
      as [->|(k & r & Hk & Hr & Hacc & _)]; [by left|].
    right. exists k, r. split_and!; [lia | done | done].
Qed.

Lemma add_custom_rule_attempts_witness :
  add_custom_rule (game [Rules.ban 6] 1 10)
    (λ k, match k with
          | O => Return (Rules.swap 6 9)
          | 1%nat => Return (Rules.ban 6)
          | _ => Return (Rules.swap 5 9)
          end)
  = Return (game [Rules.ban 6; Rules.swap 5 9] 1 10).
Proof.
  apply (proj1 (proj2 (add_custom_rule_attempts (game [Rules.ban 6] 1 10) _))
           2%nat (Rules.swap 5 9)).
  - lia.
  - intros [|[|j]] Hj; [by eexists | by eexists | lia].
  - reflexivity.
  - reflexivity.
Defined.

(** ** The range *)

Lemma prompt_range_inv_bounded n answers s e rest :
  (length answers ≤ n)%nat →
  prompt_range answers = Some (s, e, rest) →
  s < e
  ∧ ∃ skipped, answers = (skipped ++ Some s :: Some e :: rest)%list
               ∧ prompt_range skipped = None
               ∧ Nat.Even (length skipped).
Proof.
  revert answers. induction n as [|n IH]; intros answers Hlen Hrun.
  { destruct answers; [done | cbn in Hlen; lia]. }
  destruct answers as [|start [|stop more]]; [done..|].
  assert (prompt_range more = Some (s, e, rest) →
          (∀ skipped, prompt_range (start :: stop :: skipped)
                      = prompt_range skipped) →
          s < e
          ∧ ∃ skipped,
              (start :: stop :: more
               = skipped ++ Some s :: Some e :: rest)%list
              ∧ prompt_range skipped = None
              ∧ Nat.Even (length skipped)) as Hnext.
  { intros Hmore Hany.
    destruct (IH more) as (Hlt & skipped & -> & Hnone & Heven);
      [cbn in Hlen; lia | done |].
    split; [done|]. exists (start :: stop :: skipped).
    split; [done|]. split; [by rewrite Hany|].
    destruct Heven as [k Hk]. exists (S k). cbn. lia. }
  destruct start as [s0|], stop as [e0|]; cbn in Hrun;
    try (by apply Hnext).
  destruct (s0 >=? e0) eqn:Hge.
  - apply Hnext; [done|]. intros skipped. cbn. by rewrite Hge.
  - injection Hrun as <- <- <-. rewrite Z.geb_leb in Hge.
    apply Z.leb_gt in Hge. split; [done|]. exists [].
    split; [done|]. split; [done|]. by exists 0%nat.
Qed.

Lemma prompt_range_inv answers s e rest :
  prompt_range answers = Some (s, e, rest) →
  s < e
  ∧ ∃ skipped, answers = (skipped ++ Some s :: Some e :: rest)%list
               ∧ prompt_range skipped = None
               ∧ Nat.Even (length skipped).
Proof. by apply (prompt_range_inv_bounded (length answers)). Qed.

Lemma prompt_range_skip_bounded n skipped more :
  (length skipped ≤ n)%nat →
  Nat.Even (length skipped) → prompt_range skipped = None →
  prompt_range (skipped ++ more) = prompt_range more.
Proof.
  revert skipped. induction n as [|n IH]; intros skipped Hlen Heven Hnone.
  { destruct skipped; [done | cbn in Hlen; lia]. }
  destruct skipped as [|start [|stop skipped]]; [done | |].
  { destruct Heven as [k Hk]. cbn in Hk. lia. }
  assert (Nat.Even (length skipped)) as Heven'.
  { destruct Heven as [k Hk]. exists (k - 1)%nat. cbn in Hk. lia. }
  cbn in Hlen.
  destruct start as [s0|], stop as [e0|]; cbn in *;
    try (apply IH; [lia | done | done]).
  destruct (s0 >=? e0); [|done]. apply IH; [lia | done | done].
Qed.

(** X11: the range of the game always has its start below its end.  It
    is so in a new game; [prompt_range] skips the pairs of answers that
    hold an answer that is no integer or that have start >= end and
    returns the first pair left, which has start < end, so that
    [change_range] sets such a range and leaves the rules alone; and
    the other operations do not touch the range. *)
Theorem range_kept :
  range_start new_game < range_end new_game
  ∧ (∀ g answers g' rest,
       change_range g answers = Some (g', rest) →
       range_start g' < range_end g'
       ∧ active_rules g' = active_rules g
       ∧ ∃ skipped,
           answers = (skipped
                      ++ Some (range_start g') :: Some (range_end g') :: rest)%list
           ∧ prompt_range skipped = None
           ∧ Nat.Even (length skipped))
  ∧ (∀ g skipped s e rest,
       Nat.Even (length skipped) → prompt_range skipped = None → s < e →
       change_range g (skipped ++ Some s :: Some e :: rest)
       = Some ({| active_rules := active_rules g;
                  range_start := s; range_end := e |}, rest))
  ∧ (∀ g entry added g',
       try_add g entry = Return (added, g') →
       range_start g' = range_start g ∧ range_end g' = range_end g)
  ∧ (∀ g choice out g',
       remove_rule g choice = Return (out, g') →
       range_start g' = range_start g ∧ range_end g' = range_end g)
  ∧ (∀ g builder g',
       add_custom_rule g builder = Return g' →
       range_start g' = range_start g ∧ range_end g' = range_end g)
  ∧ (∀ g choice g',
       add_predefined_rule g choice = Return g' →
       range_start g' = range_start g ∧ range_end g' = range_end g).
Proof.
  assert (∀ g entry added g',
       try_add g entry = Return (added, g') →
       range_start g' = range_start g ∧ range_end g' = range_end g) as Hadd.
  { intros g entry added g' Hrun.
    by destruct (try_add_inv _ _ _ _ Hrun) as [[_ ->]|(_ & -> & _)]. }
  split_and!; [done | | | exact Hadd | | |].
  - intros g answers g' rest Hrun. unfold change_range in Hrun.
    destruct (prompt_range answers) as [[[s e] rest']|] eqn:Hp; [|done].
    injection Hrun as <- <-. cbn.
    destruct (prompt_range_inv _ _ _ _ Hp) as (Hlt & skipped & Heq & Hnone & Hev).
    split_and!; [done | done |]. by exists skipped.
  - intros g skipped s e rest Heven Hnone Hlt. unfold change_range.
    rewrite (prompt_range_skip_bounded (length skipped)) by done.
    cbn. rewrite Z.geb_leb, (proj2 (Z.leb_gt e s)) by done. done.
  - intros g choice out g' Hrun.
    by destruct (remove_rule_inv _ _ _ _ Hrun) as [->|[i ->]].
  - intros g builder g' Hrun.
    destruct (add_custom_loop_inv _ _ _ _ _ Hrun)
      as [->|(k & r & _ & _ & Hacc & _)]; [done|].
    by apply Hadd in Hacc.
  - intros g choice g' Hrun.
    destruct (add_predefined_rule_inv _ _ _ Hrun)
      as [->|(c & desc & r & _ & _ & Hacc)]; [done|].
    by apply Hadd in Hacc.
Qed.

Lemma range_kept_witness :
  range_start (game [Rules.ban 4] 3 8) < range_end (game [Rules.ban 4] 3 8)
  ∧ active_rules (game [Rules.ban 4] 3 8)
    = active_rules (game [Rules.ban 4] 1 10)
  ∧ ∃ skipped,
      [Some 5; None; Some 9; Some 9; Some 3; Some 8; Some 1]
      = (skipped ++ Some (range_start (game [Rules.ban 4] 3 8))
                 :: Some (range_end (game [Rules.ban 4] 3 8)) :: [Some 1])%list
      ∧ prompt_range skipped = None
      ∧ Nat.Even (length skipped).
Proof.
  apply (proj1 (proj2 range_kept) (game [Rules.ban 4] 1 10)
           [Some 5; None; Some 9; Some 9; Some 3; Some 8; Some 1]).
  reflexivity.
Defined.

(** ** The display *)

Lemma remove_rule_removed g c r g' :
  remove_rule g (Some c) = Return (Removed r, g') →
  1 ≤ c ≤ Z.of_nat (length (active_rules g))
  ∧ active_rules g !! Z.to_nat (c - 1) = Some r.
Proof.
  unfold remove_rule. intros Hrun.
  destruct (active_rules g) as [|r0 rest] eqn:Hl; [done|].
  destruct (1 <=? c) eqn:H1, (c <=? Z.of_nat (length (r0 :: rest))) eqn:H2;
    cbn [negb andb] in Hrun; try done.
  apply Z.leb_le in H1, H2. split; [done|].
  destruct (pop_in_range (r0 :: rest) (c - 1)) as (x & Hx & Hpop); [lia|].
  rewrite Hpop in Hrun. cbn in Hrun. by injection Hrun as <- _.
Qed.

(** X12: the numbers that [show_active_rules] prints are the positions
    that [remove_rule] takes.  It prints one line per active rule (one
    line in all when there is none), and when [remove_rule] at [c]
    removes a rule, the line of rank [c] is the one that shows [c],
    right-aligned on two columns, before the description of that rule. *)
Theorem display_matches_removal (g : RuleGame) :
  length (show_active_rules g)
  = Nat.max 1 (length (active_rules g))
  ∧ ∀ c r g',
      remove_rule g (Some c) = Return (Removed r, g') →
      show_active_rules g !! Z.to_nat (c - 1)
      = Some ("    " +:+ rjust 2 (str c) +:+ ". " +:+ description r).
Proof.
  split.
  - unfold show_active_rules. destruct (active_rules g) as [|r0 rest] eqn:Hl;
      [done|]. rewrite length_imap. cbn. lia.
  - intros c r g' Hrun.
    destruct (remove_rule_removed _ _ _ _ Hrun) as [Hc Hr].
    unfold show_active_rules.
    destruct (active_rules g) as [|r0 rest] eqn:Hl; [done|].
    rewrite list_lookup_imap, Hr. cbn.
    by replace (Z.of_nat (Z.to_nat (c - 1)) + 1) with c by lia.
Qed.

Lemma display_matches_removal_witness :
  show_active_rules (game [Rules.swap 6 9; Rules.ban 4] 1 10)
    !! Z.to_nat (2 - 1)
  = Some ("    " +:+ rjust 2 (str 2) +:+ ". " +:+ description (Rules.ban 4)).
Proof.
  apply (proj2 (display_matches_removal
                  (game [Rules.swap 6 9; Rules.ban 4] 1 10))
           2 (Rules.ban 4) (game [Rules.swap 6 9] 1 10)).
  reflexivity.
Defined.

(** ** The value object and the transformations *)

Lemma foldl_tag_fields rv texts :
  number (foldl tag rv texts) = number rv
  ∧ banned (foldl tag rv texts) = banned rv
  ∧ tags (foldl tag rv texts) = (tags rv ++ texts)%list.
Proof.
  revert rv. induction texts as [|text texts IH]; intros rv; cbn.
  - by rewrite app_nil_r.
  - destruct (IH (tag rv text)) as (-> & -> & ->). cbn.
    by rewrite <- app_assoc.
Qed.

(** X13: chained tags render in the order of the calls, and hide the
    number: a fresh value tagged with a non-empty sequence of texts
    renders as these texts joined by single spaces.  A banned value
    stays banned under further tags: it still raises, with its number. *)
Theorem tags_render_in_order (n : Z) (texts : list string) :
  texts ≠ [] →
  render (foldl tag (fresh n) texts) = Return (String.concat " " texts)
  ∧ render (foldl tag (ban_value (fresh n)) texts)
    = Raise (BannedNumberError n).
Proof.
  intros Hne. unfold render.
  destruct (foldl_tag_fields (fresh n) texts) as (Hn & Hb & Ht).
  destruct (foldl_tag_fields (ban_value (fresh n)) texts) as (Hn' & Hb' & _).
  rewrite Hb, Ht, Hb', Hn'. cbn. by destruct texts.
Qed.

Lemma tags_render_in_order_witness :
  render (foldl tag (fresh 15) ["Fizz"; "Buzz"]) = Return "Fizz Buzz"
  ∧ render (foldl tag (ban_value (fresh 15)) ["Fizz"; "Buzz"])
    = Raise (BannedNumberError 15).
Proof. by apply (tags_render_in_order 15 ["Fizz"; "Buzz"]). Defined.

(** X14: the divisible rule tags the multiples of its divisor, whatever
    the signs: the transformation of [divisible(d, text)] appends
    [text] to the tags of a value exactly when [d] divides its number,
    and leaves the value as it is otherwise; [divisible(-d, text)] does
    the same to every value, though the checker does not take the two
    rules for duplicates. *)
Theorem divisible_tags_multiples (d : Z) (text : string) (r : RuleEntry) :
  Rules.divisible d text = Return r →
  (∀ rv, ((d | number rv) →
          tags (fn r rv) = (tags rv ++ [text])%list
          ∧ number (fn r rv) = number rv ∧ banned (fn r rv) = banned rv)
         ∧ (¬ (d | number rv) → fn r rv = rv))
  ∧ ∃ r', Rules.divisible (- d) text = Return r'
          ∧ (∀ rv, ((d | number rv) →
                    tags (fn r' rv) = (tags rv ++ [text])%list
                    ∧ number (fn r' rv) = number rv
                    ∧ banned (fn r' rv) = banned rv)
                   ∧ (¬ (d | number rv) → fn r' rv = rv))
          ∧ ConflictChecker.identical r r' = false.
Proof.
  unfold Rules.divisible. intros Hr.
  destruct (Z.eqb_spec d 0) as [|Hd]; [done|]. injection Hr as <-.
  split.
  - intros rv. cbn. rewrite <- (Z.mod_divide _ _ Hd).
    destruct (Z.eqb_spec (number rv mod d) 0); split; done.
  - destruct (Z.eqb_spec (- d) 0) as [|Hd']; [lia|].
    eexists. split; [done|]. split.
    + intros rv. cbn.
      assert ((number rv mod - d =? 0) = (number rv mod d =? 0)) as ->.
      { destruct (Z.eqb_spec (number rv mod d) 0) as [H0|H0],
                 (Z.eqb_spec (number rv mod - d) 0) as [H1|H1]; try done.
        - exfalso. apply H1. apply Z.mod_divide; [done|].
          apply Z.divide_opp_l. by apply Z.mod_divide.
        - exfalso. apply H0. apply Z.mod_divide; [done|].
          apply Z.divide_opp_l. by apply Z.mod_divide in H1. }
      rewrite <- (Z.mod_divide _ _ Hd).
      destruct (Z.eqb_spec (number rv mod d) 0); split; done.
    + unfold ConflictChecker.identical. cbn.
      apply bool_decide_eq_false. intros Heq.
      apply (f_equal (λ m : gmap string pval, m !! "divisor")) in Heq.
      cbn beta in Heq. rewrite !lookup_insert_eq in Heq.
      injection Heq as Heq. lia.
Qed.

Lemma divisible_tags_multiples_witness :
  ∃ r, Rules.divisible 3 "Fizz" = Return r
       ∧ (∀ rv, ((3 | number rv) →
                 tags (fn r rv) = (tags rv ++ ["Fizz"])%list
                 ∧ number (fn r rv) = number rv
                 ∧ banned (fn r rv) = banned rv)
                ∧ (¬ (3 | number rv) → fn r rv = rv))
       ∧ ∃ r', Rules.divisible (- 3) "Fizz" = Return r'
               ∧ (∀ rv, ((3 | number rv) →
                         tags (fn r' rv) = (tags rv ++ ["Fizz"])%list
                         ∧ number (fn r' rv) = number rv
                         ∧ banned (fn r' rv) = banned rv)
                        ∧ (¬ (3 | number rv) → fn r' rv = rv))
               ∧ ConflictChecker.identical r r' = false.
Proof.
  eexists. split; [reflexivity|].
  apply (divisible_tags_multiples 3 "Fizz"). reflexivity.
Defined.

(** X15: the odd rule tags exactly the odd integers and the even rule
    exactly the even ones, negative numbers and zero included: on an
    odd number the odd rule appends its text to the tags and the even
    rule leaves the value as it is, on an even number it is the other
    way round; so for every value exactly one of the two
    transformations lengthens the tags, by one. *)
Theorem parity_rules_split (odd_text even_text : string) (rv : RuleValue) :
  (if Z.odd (number rv)
   then tags (fn (Rules.odd odd_text) rv) = (tags rv ++ [odd_text])%list
        ∧ fn (Rules.even even_text) rv = rv
   else fn (Rules.odd odd_text) rv = rv
        ∧ tags (fn (Rules.even even_text) rv) = (tags rv ++ [even_text])%list)
  ∧ number (fn (Rules.odd odd_text) rv) = number rv
  ∧ banned (fn (Rules.odd odd_text) rv) = banned rv
  ∧ number (fn (Rules.even even_text) rv) = number rv
  ∧ banned (fn (Rules.even even_text) rv) = banned rv
  ∧ (length (tags (fn (Rules.odd odd_text) rv))
     + length (tags (fn (Rules.even even_text) rv))
     = S (2 * length (tags rv)))%nat.
Proof.
  cbn. rewrite Zmod_even, <- Z.negb_even.
  destruct (Z.even (number rv)); cbn; rewrite ?length_app; cbn;
    split_and!; auto; lia.
Qed.

(** ** More on the evaluation *)

Lemma governing_snoc rules r n :
  governing (rules ++ [r]) n
  = if governs r n then Some r else governing rules n.
Proof.
  induction rules as [|x rules IH]; cbn.
  - by destruct (governs r n).
  - rewrite IH. by destruct (governs r n).
Qed.

(** X16: the rule added last takes effect.  When the last rule of a
    collection of factory rules can affect a number of the range that
    is not banned, the label of the number is what this rule makes of
    it, whatever the earlier rules; so a last [swap(n, b)] labels [n]
    with [b], and a last [swap(n, n)] gives [n] its plain label back. *)
Theorem newest_rule_wins (g : RuleGame) (rules : list RuleEntry)
    (r : RuleEntry) (n : Z) :
  active_rules g = (rules ++ [r])%list →
  Forall from_factory (active_rules g) →
  range_start g ≤ n ≤ range_end g →
  banned_by (active_rules g) n = false →
  governs r n = true →
  ∃ m text,
    evaluate g = Return m
    ∧ m !! n = Some text
    ∧ render (fn r (fresh n)) = Return text
    ∧ ∀ b, r = Rules.swap n b → text = str b.
Proof.
  intros Hl Hf Hn Hfree Hg.
  destruct (unbanned_label g n Hf Hn Hfree) as (m & text & Hev & Hm & Hr).
  unfold governed_value in Hr. rewrite Hl, governing_snoc, Hg in Hr.
  exists m, text. split_and!; [done..|].
  intros b ->. cbn in Hr. rewrite Z.eqb_refl in Hr. cbn in Hr. congruence.
Qed.

Lemma newest_rule_wins_witness :
  ∃ m text,
    evaluate (game [Rules.replace 3 "three"; Rules.swap 3 3] 1 5) = Return m
    ∧ m !! 3 = Some text
    ∧ render (fn (Rules.swap 3 3) (fresh 3)) = Return text
    ∧ ∀ b, Rules.swap 3 3 = Rules.swap 3 b → text = str b.
Proof.
  apply (newest_rule_wins
           (game [Rules.replace 3 "three"; Rules.swap 3 3] 1 5)
           [Rules.replace 3 "three"]).
  - reflexivity.
  - repeat constructor.
  - cbn. lia.
  - reflexivity.
  - reflexivity.
Defined.

Lemma governing_without_bans rules n :
  governing (without_bans rules) n = governing rules n.
Proof.
  induction rules as [|r rules IH]; [done|].
  unfold without_bans in *. cbn [List.filter governing].
  destruct (String.eqb (kind r) "ban") eqn:Hk; cbn [negb governing];
    rewrite IH; [|done].
  unfold governs. apply String.eqb_eq in Hk. rewrite Hk. cbn.
  by destruct (governing rules n).
Qed.

Lemma banned_by_without_bans rules n :
  banned_by (without_bans rules) n = false.
Proof.
  induction rules as [|r rules IH]; [done|].
  unfold without_bans in *. cbn [List.filter].
  destruct (String.eqb (kind r) "ban") eqn:Hk; cbn [negb]; [done|].
  unfold banned_by in *. cbn [existsb]. by rewrite Hk, IH.
Qed.

(** X17: the ban rules change the labels of the banned numbers only.
    For a game of factory rules, a number of the range that is not
    banned has the label it has in the game without the ban rules. *)
Theorem bans_leave_other_labels (g : RuleGame) (n : Z) :
  Forall from_factory (active_rules g) →
  range_start g ≤ n ≤ range_end g →
  banned_by (active_rules g) n = false →
  ∃ m m',
    evaluate g = Return m
    ∧ evaluate (with_rules g (without_bans (active_rules g))) = Return m'
    ∧ m !! n = m' !! n.
Proof.
  intros Hf Hn Hfree.
  destruct (unbanned_label g n Hf Hn Hfree) as (m & text & Hev & Hm & Hr).
  destruct (unbanned_label (with_rules g (without_bans (active_rules g))) n)
    as (m' & text' & Hev' & Hm' & Hr').
  - cbn. unfold without_bans. rewrite Forall_forall in Hf |- *.
    intros x Hx. apply Hf. apply list_elem_of_In in Hx.
    apply filter_In in Hx as [Hx _]. by apply list_elem_of_In.
  - done.
  - apply banned_by_without_bans.
  - exists m, m'. split_and!; [done | done |].
    cbn in Hr'. unfold governed_value in Hr, Hr'.
    rewrite governing_without_bans in Hr'. congruence.
Qed.

Lemma bans_leave_other_labels_witness :
  ∃ m m',
    evaluate (game [Rules.odd "Odd"; Rules.ban 4; Rules.ban 5] 1 10) = Return m
    ∧ evaluate (with_rules (game [Rules.odd "Odd"; Rules.ban 4; Rules.ban 5] 1 10)
                  (without_bans [Rules.odd "Odd"; Rules.ban 4; Rules.ban 5]))
      = Return m'
    ∧ m !! 3 = m' !! 3.
Proof.
  apply (bans_leave_other_labels
           (game [Rules.odd "Odd"; Rules.ban 4; Rules.ban 5] 1 10) 3).
  - repeat constructor.
  - cbn. lia.
  - reflexivity.
Defined.

(** ** The predefined rules *)

Lemma predefined_cases r :
  predefined_rule r →
  r = Rules.swap 6 9 ∨ r = Rules.replace 1 "ewww 1" ∨ r = Rules.ban 4
  ∨ Rules.divisible 3 "Fizz" = Return r ∨ r = Rules.odd "Odd".
Proof.
  intros (c & desc & Hc). apply elem_of_list_to_map_2 in Hc.
  apply elem_of_cons in Hc as [[= _ _ Hr]|Hc]; [by left|].
  apply elem_of_cons in Hc as [[= _ _ Hr]|Hc]; [by right; left|].
  apply elem_of_cons in Hc as [[= _ _ Hr]|Hc]; [by right; right; left|].
  apply elem_of_cons in Hc as [[= _ _ Hr]|Hc];
    [right; right; right; left; by subst r|].
  apply elem_of_cons in Hc as [[= _ _ Hr]|Hc]; [by right; right; right; right|].
  by apply not_elem_of_nil in Hc.
Qed.

Lemma predefined_bans r v : predefined_rule r → bans r v → v = PInt 4.
Proof.
  intros Hr [Hk Hv].
  destruct (predefined_cases r Hr) as [->|[->|[->|[Hd| ->]]]]; try done.
  - by injection Hv as <-.
  - cbn in Hd. by injection Hd as <-.
Qed.

Lemma predefined_touches r : predefined_rule r → ¬ touches r (PInt 4).
Proof.
  intros Hr Ht.
  destruct (predefined_cases r Hr) as [->|[->|[->|[Hd| ->]]]].
  - destruct Ht as [[? _]|[_ [?|?]]]; done.
  - destruct Ht as [[_ ?]|[? _]]; done.
  - destruct Ht as [[? _]|[? _]]; done.
  - cbn in Hd. injection Hd as <-. destruct Ht as [[? _]|[? _]]; done.
  - destruct Ht as [[? _]|[? _]]; done.
Qed.

(** X18: the predefined rules never conflict with one another.  The
    table has the keys 1 to 5, and each builder gives a rule; in a game
    whose rules are all predefined, choosing a predefined rule adds it
    at the end unless the same rule is already active, in which case
    the game is left as it was, as it is for any other answer. *)
Theorem predefined_rules_compatible (g : RuleGame) (c : Z) :
  Forall predefined_rule (active_rules g) →
  (is_Some (PREDEFINED !! c) ↔ 1 ≤ c ≤ 5)
  ∧ (∀ desc builder, PREDEFINED !! c = Some (desc, builder) →
       ∃ r, builder = Return r
            ∧ add_predefined_rule g (Some c)
              = Return (if bool_decide (rule_key r ∈ rule_key <$> active_rules g)
                        then g
                        else with_rules g (active_rules g ++ [r])))
  ∧ (PREDEFINED !! c = None → add_predefined_rule g (Some c) = Return g)
  ∧ add_predefined_rule g None = Return g.
Proof.
  intros Hpre. split_and!; [| | |done].
  - split.
    + intros [[desc builder] Hc]. apply elem_of_list_to_map_2 in Hc.
      repeat (apply elem_of_cons in Hc as [Heq|Hc];
              [injection Heq as -> _; lia|]).
      by apply not_elem_of_nil in Hc.
    + intros Hc.
      assert (c = 1 ∨ c = 2 ∨ c = 3 ∨ c = 4 ∨ c = 5) as Hcases by lia.
      destruct Hcases as [->|[->|[->|[->| ->]]]]; by eexists.
  - intros desc builder Hc.
    assert (∃ r, builder = Return r) as [r ->].
    { pose proof Hc as Hc'. apply elem_of_list_to_map_2 in Hc'.
      repeat (apply elem_of_cons in Hc' as [Heq|Hc'];
              [injection Heq as _ _ ->; by eexists|]).
      by apply not_elem_of_nil in Hc'. }
    exists r. split; [done|].
    assert (predefined_rule r) as Hr by (by exists c, desc).
    assert (Forall from_factory (active_rules g)) as Hf.
    { eapply Forall_impl; [exact Hpre|].
      intros x (c' & desc' & Hx). by eapply predefined_from_factory. }
    unfold add_predefined_rule. rewrite Hc. cbn.
    destruct (check_decides (active_rules g) r Hf
                (predefined_from_factory _ _ _ Hc))
      as [[[Hkey _] Hcheck]|[Hdirty (msg & Hcheck & Ht)]].
    + rewrite (try_add_accepts _ _ Hcheck). cbn.
      by rewrite bool_decide_eq_false_2.
    + rewrite (try_add_rejects _ _ _ Hcheck Ht). cbn.
      rewrite bool_decide_eq_true_2; [done|].
      destruct (decide (rule_key r ∈ rule_key <$> active_rules g))
        as [?|Hkey]; [done|].
      exfalso. apply Hdirty. split; [done|].
      intros v Htouch (x & Hin & Hban).
      rewrite Forall_forall in Hpre.
      rewrite (predefined_bans x v (Hpre x Hin) Hban) in Htouch.
      by apply (predefined_touches r).
  - intros Hc. unfold add_predefined_rule. by rewrite Hc.
Qed.

Lemma predefined_rules_compatible_witness :
  ∃ r, Return (Rules.swap 6 9) = Return r
       ∧ add_predefined_rule (game [Rules.ban 4; Rules.odd "Odd"] 1 10) (Some 1)
         = Return (if bool_decide
                        (rule_key r
                         ∈ rule_key <$> [Rules.ban 4; Rules.odd "Odd"])
                   then game [Rules.ban 4; Rules.odd "Odd"] 1 10
                   else with_rules (game [Rules.ban 4; Rules.odd "Odd"] 1 10)
                          ([Rules.ban 4; Rules.odd "Odd"] ++ [r])).
Proof.
  apply (proj1 (proj2 (predefined_rules_compatible
                         (game [Rules.ban 4; Rules.odd "Odd"] 1 10) 1
                         ltac:(repeat constructor;
                               [by exists 3, "Ban 4"
                               | by exists 5, "Odd → 'Odd'"])))
           "Swap 6 ↔ 9").
  reflexivity.
Defined.

(** ** Edges of the checker *)

(** X19: which number the message of a rejected swap names.  For factory
    rules and a swap that duplicates no active rule, the message names
    the first endpoint when it is banned, whether or not the second is
    banned too, and the second endpoint only when the first is free. *)
Theorem swap_message_names_first (g : RuleGame) (a b : Z) :
  Forall from_factory (active_rules g) →
  rule_key (Rules.swap a b) ∉ rule_key <$> active_rules g →
  (banned_by (active_rules g) a = true →
   ConflictChecker.check (active_rules g) (Rules.swap a b)
   = Return (Some (str a +:+ " is already banned — it cannot participate in a swap")))
  ∧ (banned_by (active_rules g) a = false →
     banned_by (active_rules g) b = true →
     ConflictChecker.check (active_rules g) (Rules.swap a b)
     = Return (Some (str b +:+ " is already banned — it cannot participate in a swap"))).
Proof.
  intros Hf Hkey.
  destruct (banned_numbers_factory _ Hf) as (bn & Hbn & Hspec).
  apply find_identical_keys in Hkey.
  pose proof (check_swap_fresh _ a b _ Hbn Hkey) as Hc.
  split.
  - intros Ha. apply banned_by_spec, Hspec in Ha.
    by rewrite bool_decide_eq_true_2 in Hc.
  - intros Ha Hb. apply not_banned_by_spec in Ha. rewrite <- Hspec in Ha.
    apply banned_by_spec, Hspec in Hb.
    by rewrite bool_decide_eq_false_2, bool_decide_eq_true_2 in Hc.
Qed.

Lemma swap_message_names_first_witness :
  ConflictChecker.check [Rules.ban 9; Rules.ban 6] (Rules.swap 6 9)
  = Return (Some (str 6 +:+ " is already banned — it cannot participate in a swap")).
Proof.
  apply (proj1 (swap_message_names_first (game [Rules.ban 9; Rules.ban 6] 1 10)
                  6 9 ltac:(repeat constructor) ltac:(compute_done))).
  reflexivity.
Defined.

Lemma banned_numbers_missing_num active :
  (∃ r, r ∈ active ∧ ban_without_num r)
  ↔ ConflictChecker.banned_numbers active = Raise (KeyError "num").
Proof.
  unfold ban_without_num.
  induction active as [|x active [IH1 IH2]]; cbn [ConflictChecker.banned_numbers].
  { split; [|done]. intros (r & Hin & _). by apply not_elem_of_nil in Hin. }
  destruct (String.eqb_spec (kind x) "ban") as [Hk|Hk].
  - unfold get. destruct (params x !! "num") as [n|] eqn:Hn; cbn [bind].
    + split.
      * intros (r & Hin & Hkr & Hnr).
        apply elem_of_cons in Hin as [->|Hin]; [congruence|].
        rewrite IH1; [done | by exists r].
      * intros Hraise.
        destruct (ConflictChecker.banned_numbers active) as [s|exc|] eqn:Hb;
          cbn in Hraise; [done | | done].
        destruct (IH2 Hraise) as (r & Hin & Hr). exists r.
        split; [by right | done].
    + split; [done|]. intros _. exists x. split; [left | done].
  - split.
    + intros (r & Hin & Hkr & Hnr).
      apply elem_of_cons in Hin as [->|Hin]; [done|].
      apply IH1. by exists r.
    + intros Hraise. destruct (IH2 Hraise) as (r & Hin & Hr). exists r.
      split; [by right | done].
Qed.

Lemma build_maps_missing_num s e rules :
  (∃ r, r ∈ rules ∧ ban_without_num r) →
  ∀ st, ∃ exc, build_maps s e rules st = Raise exc.
Proof.
  intros (r & Hin & Hk & Hn).
  induction rules as [|x rules IH]; intros st;
    [by apply not_elem_of_nil in Hin|].
  cbn [build_maps].
  destruct (add_rule s e st x) as [st'|exc|] eqn:Hstep.
  - cbn. apply elem_of_cons in Hin as [->|Hin]; [|by apply IH].
    exfalso. unfold add_rule, get in Hstep. destruct st as [rm bn].
    rewrite Hk, Hn in Hstep. done.
  - by exists exc.
  - exfalso. unfold add_rule in Hstep. destruct st as [rm bn].
    repeat (destruct (String.eqb _ _) in Hstep; cbn in Hstep;
            [unfold get in Hstep;
             repeat (destruct (params x !! _) in Hstep; cbn in Hstep; try done)|]).
    destruct (assign_range x _ rm) as [rm'| |] eqn:Hassign; try done.
    clear Hstep. revert rm Hassign.
    generalize (py_range s (e + 1)). intros ns.
    induction ns as [|n ns IHns]; intros rm Hassign; [done|].
    cbn in Hassign. destruct (matches x n) as [hit| |] eqn:Hm; cbn in Hassign.
    + by eapply IHns.
    + done.
    + unfold matches, get in Hm.
      repeat (destruct (String.eqb _ _) in Hm; cbn in Hm; try done).
      destruct (params x !! "divisor") as [[[| |]|]|] in Hm; done.
Qed.

(** X20: a ban rule built by hand without its ['num'] param breaks the
    engine rather than being ignored: the collection holds such a rule
    exactly when the checker raises [KeyError('num')] on building its
    banned set; it then raises for every candidate, duplicates
    included, so that nothing can be added; and every round is lost,
    whatever the moves. *)
Theorem ban_without_num_raises (g : RuleGame) :
  ((∃ r, r ∈ active_rules g ∧ ban_without_num r)
   ↔ ConflictChecker.banned_numbers (active_rules g) = Raise (KeyError "num"))
  ∧ ((∃ r, r ∈ active_rules g ∧ ban_without_num r) →
     (∀ proposed,
        ConflictChecker.check (active_rules g) proposed = Raise (KeyError "num")
        ∧ try_add g proposed = Raise (KeyError "num"))
     ∧ ∀ moves, run_iteration g moves = false).
Proof.
  split; [apply banned_numbers_missing_num|].
  intros Hbad. split.
  - intros proposed. apply banned_numbers_missing_num in Hbad.
    unfold try_add, ConflictChecker.check. by rewrite Hbad.
  - intros moves. unfold run_iteration.
    destruct (build_maps_missing_num (range_start g) (range_end g) _ Hbad (∅, ∅))
      as [exc ->]. done.
Qed.

Lemma ban_without_num_raises_witness :
  (∀ proposed,
     ConflictChecker.check
       [Rules.odd "Odd"; mkRuleEntry "ban" ∅ "Ban ?" (λ rv, rv)] proposed
     = Raise (KeyError "num")
     ∧ try_add (game [Rules.odd "Odd"; mkRuleEntry "ban" ∅ "Ban ?" (λ rv, rv)] 1 10)
         proposed
       = Raise (KeyError "num"))
  ∧ ∀ moves,
      run_iteration
        (game [Rules.odd "Odd"; mkRuleEntry "ban" ∅ "Ban ?" (λ rv, rv)] 1 10)
        moves = false.
Proof.
  apply (proj2 (ban_without_num_raises
           (game [Rules.odd "Odd"; mkRuleEntry "ban" ∅ "Ban ?" (λ rv, rv)] 1 10))).
  exists (mkRuleEntry "ban" ∅ "Ban ?" (λ rv, rv)).
  split; [right; left | split; reflexivity].
Defined.

(** ** More on the cascade *)

(** X21: the cascade names the following number, not its label.  When a
    banned number of the range is followed by a number of the range
    that is not banned, the label of the banned number is the decimal
    string of the follower, while the follower itself carries the
    rendering of its governing rule, which may be a text. *)
Theorem cascade_names_number (g : RuleGame) (n : Z) :
  Forall from_factory (active_rules g) →
  range_start g ≤ n → n + 1 ≤ range_end g →
  banned_by (active_rules g) n = true →
  banned_by (active_rules g) (n + 1) = false →
  ∃ m text,
    evaluate g = Return m
    ∧ m !! n = Some (str (n + 1))
    ∧ m !! (n + 1) = Some text
    ∧ render (governed_value (active_rules g) (n + 1)) = Return text.
Proof.
  intros Hf Hlo Hhi Hb0 Hb1.
  destruct (unbanned_label g (n + 1) Hf) as (m & text & Hev & Hm & Hr);
    [lia | done |].
  destruct (evaluate_factory g Hf)
    as (rm & bn & m' & _ & Hev' & Hrm & _ & Hbn & Hin & _).
  assert (m' = m) as -> by congruence.
  exists m, text. split_and!; [done | | done | done].
  destruct (Hin n) as (label & He & ->); [lia|]. f_equal.
  apply banned_by_spec, Hbn in Hb0.
  apply not_banned_by_spec in Hb1. rewrite <- Hbn in Hb1.
  unfold expected in He.
  destruct (render (transformed rm n)) as [rendered| |]; [|done..].
  cbn in He. rewrite bool_decide_eq_true_2 in He by done.
  rewrite bool_decide_eq_false_2 in He by done. cbn in He. congruence.
Qed.

Lemma cascade_names_number_witness :
  ∃ m text,
    evaluate (game [Rules.ban 2; Rules.odd "Odd"] 1 3) = Return m
    ∧ m !! 2 = Some (str (2 + 1))
    ∧ m !! (2 + 1) = Some text
    ∧ render (governed_value [Rules.ban 2; Rules.odd "Odd"] (2 + 1))
      = Return text.
Proof.
  apply (cascade_names_number (game [Rules.ban 2; Rules.odd "Odd"] 1 3) 2).
  - repeat constructor.
  - cbn. lia.
  - cbn. lia.
  - reflexivity.
  - reflexivity.
Defined.

(** X22: a banned number can still be an expected answer.  The checker
    lets a number be banned after a swap on it, and then the other
    endpoint of the swap is labelled with the banned number: with
    [swap(a, b)] then [ban(a)], for distinct [a] and [b] in the range,
    [try_add] accepts the ban and the label of [b] is the decimal
    string of [a]. *)
Theorem banned_number_as_label (s e a b : Z) :
  a ≠ b → s ≤ b ≤ e →
  try_add (game [Rules.swap a b] s e) (Rules.ban a)
  = Return (true, game [Rules.swap a b; Rules.ban a] s e)
  ∧ ∃ m, evaluate (game [Rules.swap a b; Rules.ban a] s e) = Return m
         ∧ m !! b = Some (str a).
Proof.
  intros Hab Hb. split; [done|].
  destruct (unbanned_label (game [Rules.swap a b; Rules.ban a] s e) b)
    as (m & text & Hev & Hm & Hr).
  - repeat constructor.
  - done.
  - cbn. rewrite bool_decide_eq_false_2; [done|].
    rewrite lookup_insert_eq. congruence.
  - exists m. split; [done|]. rewrite Hm. f_equal.
    unfold governed_value, game in Hr. cbn [active_rules governing] in Hr.
    rewrite governs_ban, governs_swap in Hr.
    rewrite (bool_decide_eq_true_2 (b = b)), orb_true_r in Hr by done.
    cbn in Hr. rewrite (proj2 (Z.eqb_neq b a)), Z.eqb_refl in Hr by done.
    cbn in Hr. congruence.
Qed.

Lemma banned_number_as_label_witness :
  try_add (game [Rules.swap 4 9] 1 10) (Rules.ban 4)
  = Return (true, game [Rules.swap 4 9; Rules.ban 4] 1 10)
  ∧ ∃ m, evaluate (game [Rules.swap 4 9; Rules.ban 4] 1 10) = Return m
         ∧ m !! 9 = Some (str 4).
Proof. apply (banned_number_as_label 1 10 4 9); lia. Defined.

(** ** More on removal *)

(** X23: removing a rule closes the gap.  When [remove_rule] at [c]
    removes a rule, the collection is one rule shorter, the rules
    before position [c] keep their positions and each rule after it
    moves up by one; the range is untouched. *)
Theorem removal_shifts_positions (g g' : RuleGame) (c : Z) (r : RuleEntry) :
  remove_rule g (Some c) = Return (Removed r, g') →
  S (length (active_rules g')) = length (active_rules g)
  ∧ (∀ i, (i < Z.to_nat (c - 1))%nat →
          active_rules g' !! i = active_rules g !! i)
  ∧ (∀ i, (Z.to_nat (c - 1) ≤ i)%nat →
          active_rules g' !! i = active_rules g !! S i)
  ∧ range_start g' = range_start g ∧ range_end g' = range_end g.
Proof.
  intros Hrun.
  destruct (remove_rule_removed _ _ _ _ Hrun) as [Hc Hr].
  assert (g' = with_rules g (delete (Z.to_nat (c - 1)) (active_rules g))) as ->.
  { unfold remove_rule in Hrun.
    destruct (active_rules g) as [|r0 rest] eqn:Hl; [done|].
    rewrite (proj2 (Z.leb_le 1 c)), (proj2 (Z.leb_le c _)) in Hrun by lia.
    cbn [negb andb] in Hrun.
    destruct (pop_in_range (r0 :: rest) (c - 1)) as (x & _ & Hpop); [lia|].
    rewrite Hpop in Hrun. cbn in Hrun. by injection Hrun as _ <-. }
  cbn. split_and!; [| | |done..].
  - rewrite length_delete by (by eexists). 
    assert (0 < length (active_rules g))%nat; [|lia].
    apply lookup_lt_Some in Hr. lia.
  - intros i Hi. by apply list_lookup_delete_lt.
  - intros i Hi. by apply list_lookup_delete_ge.
Qed.

Lemma removal_shifts_positions_witness :
  S (length (active_rules (game [Rules.swap 6 9; Rules.odd "Odd"] 1 10)))
  = length (active_rules (game [Rules.swap 6 9; Rules.ban 4; Rules.odd "Odd"] 1 10))
  ∧ (∀ i, (i < Z.to_nat (2 - 1))%nat →
          active_rules (game [Rules.swap 6 9; Rules.odd "Odd"] 1 10) !! i
          = active_rules
              (game [Rules.swap 6 9; Rules.ban 4; Rules.odd "Odd"] 1 10) !! i)
  ∧ (∀ i, (Z.to_nat (2 - 1) ≤ i)%nat →
          active_rules (game [Rules.swap 6 9; Rules.odd "Odd"] 1 10) !! i
          = active_rules
              (game [Rules.swap 6 9; Rules.ban 4; Rules.odd "Odd"] 1 10) !! S i)
  ∧ range_start (game [Rules.swap 6 9; Rules.odd "Odd"] 1 10)
    = range_start (game [Rules.swap 6 9; Rules.ban 4; Rules.odd "Odd"] 1 10)
  ∧ range_end (game [Rules.swap 6 9; Rules.odd "Odd"] 1 10)
    = range_end (game [Rules.swap 6 9; Rules.ban 4; Rules.odd "Odd"] 1 10).
Proof.
  apply (removal_shifts_positions
           (game [Rules.swap 6 9; Rules.ban 4; Rules.odd "Odd"] 1 10)
           (game [Rules.swap 6 9; Rules.odd "Odd"] 1 10) 2 (Rules.ban 4)).
  reflexivity.
Defined.
